(** * fill_text_to_shape: a model of [image_processing.py]

    The module pours a text into the opaque regions of an image: a
    scanner extracts horizontal spans (boundaries), a packer fills them
    with words and solves the word spacing, a search picks a font size and
    a renderer issues the [draw.text] calls.

    Conventions of the model.
    - Python [int] is [Z]; Python [float] is idealised as an exact rational
      [Q] (no rounding).  Equalities between computed floats are therefore
      stated with [==].  The one place where a float is rounded as the
      machine rounds it is the height of the working image, an integer
      that shows in the result ([Float] below).
    - A function that can raise, or a loop that needs fuel, returns
      [option]; [None] stands for the exception or for exhausted fuel.
    - Pillow is an external library: what the module asks of it
      ([font.getbbox], [Image.resize]) is the interface [PIL].
    - [print] calls and the [DEBUG] overlays are left out. *)

From Stdlib Require Import ZArith QArith Qabs Qround Lqa Lia List Sorted String
  Ascii Bool.
From stdpp Require Import base option list gmap strings.
Import ListNotations.
Open Scope Z_scope.

(* ===================================================================== *)
(** * Part I: definitions                                                 *)
(* ===================================================================== *)

(** ** Python builtins used by the module *)
Module Py.

(** [int(q)]: truncation toward zero. *)
Definition int (q : Q) : Z := Z.quot (Qnum q) (Zpos (Qden q)).

(** [range(start, stop, step)]; a zero step raises [ValueError]. *)
Definition range (start stop step : Z) : option (list Z) :=
  if step =? 0 then None
  else if 0 <? step then
    Some (map (fun i => start + Z.of_nat i * step)
              (seq 0 (Z.to_nat ((stop - start + step - 1) / step))))
  else
    Some (map (fun i => start + Z.of_nat i * step)
              (seq 0 (Z.to_nat ((start - stop - step - 1) / (- step))))).

(** [sum(xs)] on numbers: a left fold from [0]. *)
Definition sum (xs : list Q) : Q := fold_left Qplus xs 0%Q.

(** [sum(xs)] on integers. *)
Definition sumZ (xs : list Z) : Z := fold_left Z.add xs 0.

(** [len(xs)] as a Python integer. *)
Definition len {A} (xs : list A) : Z := Z.of_nat (length xs).

(** [c.isspace()] for the code points a Rocq character can hold
    (0..255): TAB..CR, FS..US, space, NEL and NBSP. *)
Definition isspace (c : ascii) : bool :=
  let n := Z.of_nat (nat_of_ascii c) in
  ((9 <=? n) && (n <=? 13)) || ((28 <=? n) && (n <=? 32))
  || (n =? 133) || (n =? 160).

(** [text.split()]: maximal runs of non-space characters, in order;
    [tok] is the run being read. *)
Fixpoint split_from (tok : string) (s : string) : list string :=
  match s with
  | EmptyString => if String.eqb tok EmptyString then [] else [tok]
  | String c rest =>
      if isspace c then
        if String.eqb tok EmptyString then split_from EmptyString rest
        else tok :: split_from EmptyString rest
      else split_from (tok ++ String c EmptyString) rest
  end.

Definition split (text : string) : list string := split_from EmptyString text.

(** Comparisons on floats. *)
Definition ltb (a b : Q) : bool := if Qlt_le_dec a b then true else false.
Definition geb (a b : Q) : bool := if Qlt_le_dec a b then false else true.

End Py.

(** ** Floats rounded as the machine rounds them *)
Module Float.
Local Open Scope Q_scope.

(** [2 ** e], for an exponent of either sign. *)
Definition pow2 (e : Z) : Q := Qpower 2 e.

(** The binary exponent of [q > 0]: the [e] with [2 ** e <= q < 2 ** (e+1)]. *)
Definition ilog2 (q : Q) : Z :=
  let e := (Z.log2 (Qnum q) - Z.log2 (Zpos (Qden q)))%Z in
  if Qle_bool (pow2 e) q then e else (e - 1)%Z.

(** The nearest integer to [q >= 0], a tie going to the even one. *)
Definition rint (q : Q) : Z :=
  let f := Qfloor q in
  match Qcompare (q - inject_Z f) (1 # 2) with
  | Lt => f
  | Gt => (f + 1)%Z
  | Eq => if Z.even f then f else (f + 1)%Z
  end.

(** The double nearest to [q] (binary64: 53 significant bits, exponents
    down to [-1074], ties to even).  Beyond the largest double the
    operation overflows: [None]. *)
Definition round (q : Q) : option Q :=
  if Qeq_bool q 0 then Some 0
  else
    let a := Qabs q in
    let e := Z.max (ilog2 a - 52) (-1074) in
    let r := inject_Z (rint (a / pow2 e)) * pow2 e in
    if Qle_bool (pow2 1024) r then None
    else Some (Qred (if Qle_bool 0 q then r else - r)).

(** [a / b] on integers: [ZeroDivisionError] for [b = 0], and the
    quotient rounded once. *)
Definition truediv (a b : Z) : option Q :=
  if (b =? 0)%Z then None else round (inject_Z a / inject_Z b).

(** [float(a)] for an integer. *)
Definition of_int (a : Z) : option Q := round (inject_Z a).

(** [x * y] on floats. *)
Definition mul (x y : Q) : option Q := round (x * y).

End Float.

(** ** Pillow objects *)

(** An RGBA pixel as [getpixel] returns it; index 3 is the alpha channel. *)
Definition Pixel : Type := Z * Z * Z * Z.

Definition px3 (px : Pixel) : Z := snd px.

(** [Image.Image] in mode RGBA: its size and its pixels.  [getpixel] is
    total here, while Pillow raises [IndexError] outside the image: the
    scanner only reads pixels inside the image, and what is stated of
    [find_pixel] alone takes its row inside the image. *)
Record Image := {
  width : Z;
  height : Z;
  getpixel : Z * Z -> Pixel
}.

(** A loaded TrueType font, [ImageFont.truetype(font_fp, size)]: the handle
    names the font file and the pixel size. *)
Record ImageFont := {
  font_file : string;
  size : Z
}.

#[global] Instance ImageFont_eq_dec : EqDecision ImageFont.
Proof. solve_decision. Defined.

#[global] Instance ImageFont_countable : Countable ImageFont.
Proof.
  refine (inj_countable' (fun f => (font_file f, size f))
            (fun p => {| font_file := p.1; size := p.2 |}) _).
  by intros [].
Defined.

(** What the module calls in Pillow: [font.getbbox(word)] gives
    [(left, top, right, bottom)], and [resize] is the resampling behind
    [image.resize((w, h))] for a size it accepts. *)
Class PIL := {
  getbbox : ImageFont -> string -> Q * Q * Q * Q;
  resize : Image -> Z * Z -> Image
}.

(** [image.resize(size)]: Pillow returns a copy when [size] is the image's
    own size, raises [ValueError] when a side is below 1, and resamples
    otherwise. *)
Definition image_resize `{PIL} (image : Image) (size : Z * Z)
    : option Image :=
  if (fst size =? width image) && (snd size =? height image) then Some image
  else if (fst size <? 1) || (snd size <? 1) then None
  else Some (resize image size).

(** ** [Boundary] *)
Module Boundary.

Record t := mk {
  start_point : Z * Z;
  end_point : Z * Z
}.

(** [abs(self.start_point[0] - self.end_point[0])] *)
Definition length (self : t) : Z :=
  Z.abs (fst (start_point self) - fst (end_point self)).

End Boundary.

(** ** [load_font] and [get_word_width] *)

(** [ImageFont.truetype] raises [OSError] for a file that is not a font;
    [font_fp] ranges over the font files it loads, for which the call
    only builds the handle. *)
Definition load_font (font_fp : string) (font_size : Z) : ImageFont :=
  {| font_file := font_fp; size := font_size |}.

(** The body of [get_word_width]: [bbox[2] - bbox[0]].  The [@cache]
    decorator is modelled in [Cached] below. *)
Definition get_word_width `{PIL} (word : string) (font : ImageFont) : Q :=
  let '(x0, _, x1, _) := getbbox font word in (x1 - x0)%Q.

(** ** [TextLine] *)
Module TextLine.

Record t := mk {
  word_spacing : Q;
  start_point : Z * Z;
  font : ImageFont;
  words : list string
}.

Section methods.
Context `{PIL}.

(** [sum([get_word_width(w, font=self.font) for w in self.words])] *)
Definition words_width (self : t) : Q :=
  Py.sum (map (fun w => get_word_width w (font self)) (words self)).

(** [self.words_width + self.word_spacing * len(self.words)] *)
Definition total_width (self : t) : Q :=
  (words_width self + word_spacing self * inject_Z (Py.len (words self)))%Q.

(** [self.words.append(word)] *)
Definition add_word (self : t) (word : string) : t :=
  {| word_spacing := word_spacing self;
     start_point := start_point self;
     font := font self;
     words := words self ++ [word] |}.

Definition set_word_spacing (self : t) (s : Q) : t :=
  {| word_spacing := s;
     start_point := start_point self;
     font := font self;
     words := words self |}.

Definition set_words (self : t) (ws : list string) : t :=
  {| word_spacing := word_spacing self;
     start_point := start_point self;
     font := font self;
     words := ws |}.

(** [fit_length(length)] *)
Definition fit_length (self : t) (length : Q) : t :=
  if 1 <? Py.len (words self) then
    let space_count := Py.len (words self) - 1 in
    set_word_spacing self
      ((length - words_width self) / inject_Z space_count)%Q
  else set_word_spacing self 0%Q.

End methods.
End TextLine.

(** ** [find_pixel] *)

(** The inner [is_target_pixel]. *)
Definition is_target_pixel (find_transparent : bool) (px : Pixel) : bool :=
  (find_transparent && (px3 px =? 0))
  || (negb find_transparent && (0 <? px3 px)).

(** [for x in range(...): if is_target_pixel(...) is False: x += 1; break]:
    [xs] is what is left of the range and [x] the loop variable; the result
    is the value of [x] after the loop. *)
Fixpoint backtrack (image : Image) (start_y : Z) (find_transparent : bool)
    (xs : list Z) (x : Z) : Z :=
  match xs with
  | [] => x
  | x' :: rest =>
      if is_target_pixel find_transparent (getpixel image (x', start_y))
      then backtrack image start_y find_transparent rest x'
      else x' + 1
  end.

(** The [while x < image.width] loop; the result is [x] after the loop. *)
Fixpoint find_pixel_loop (fuel : nat) (image : Image) (x start_y step : Z)
    (find_transparent : bool) : option Z :=
  match fuel with
  | O => None
  | S fuel' =>
      if x <? width image then
        if is_target_pixel find_transparent (getpixel image (x, start_y))
        then
          xs ← Py.range x (Z.max (-1) (x - step)) (-1);
          Some (backtrack image start_y find_transparent xs x)
        else
          find_pixel_loop fuel' image (x + step) start_y step find_transparent
      else Some x
  end.

(** [find_pixel]; a failed [assert] is [None]. *)
Definition find_pixel (image : Image) (start_x start_y step : Z)
    (find_transparent : bool) : option (Z * Z) :=
  x ← find_pixel_loop (S (Z.to_nat (width image - start_x)))
        image start_x start_y step find_transparent;
  if (x <? width image)
     && negb (is_target_pixel find_transparent (getpixel image (x, start_y)))
  then None
  else Some (Z.min x (width image), start_y).

(** ** [get_text_boundaries] *)

(** The [while True] loop of one row, from column [x]. *)
Fixpoint scan_row (fuel : nat) (image : Image) (y boundaries_spacing x : Z)
    : option (list Boundary.t) :=
  match fuel with
  | O => None
  | S fuel' =>
      '(x1, _) ← find_pixel image x y boundaries_spacing false;
      if x1 =? width image then Some []
      else
        '(end_x, _) ← find_pixel image (x1 + 1) y boundaries_spacing true;
        rest ← scan_row fuel' image y boundaries_spacing end_x;
        Some (Boundary.mk (x1, y) (end_x - 1, y) :: rest)
  end.

Definition get_text_boundaries (image : Image) (boundaries_spacing : Z)
    : option (list Boundary.t) :=
  ys ← Py.range boundaries_spacing (height image) boundaries_spacing;
  rows ← mapM (fun y => scan_row (S (Z.to_nat (width image)))
                          image y boundaries_spacing 0) ys;
  Some (concat rows).

(** ** [align_text_to_boundaries] *)

Section Packer.
Context `{PIL}.
Local Open Scope Q_scope.

(** The [while words] loop for one boundary.  The result is the line
    appended to [lines] (if one is appended) and the pending words after
    the loop: the [break] branch finalizes the line and pushes the word
    back; the [else] branch, reached when the words run out, appends the
    line only if it holds a word. *)
Fixpoint fill_line (boundary : Boundary.t) (font : ImageFont)
    (min_spacing : Q) (line : TextLine.t) (words : list string)
    : option TextLine.t * list string :=
  match words with
  | [] =>
      (match TextLine.words line with
       | [] => None
       | _ :: _ =>
           Some (TextLine.fit_length line
                   (inject_Z (Boundary.length boundary)))
       end, [])
  | word :: words' =>
      let additional_width := get_word_width word font + min_spacing in
      let new_width := additional_width + TextLine.total_width line in
      if Py.ltb new_width (inject_Z (Boundary.length boundary))
         || Py.ltb (new_width - inject_Z (Boundary.length boundary))
                   (min_spacing * (25 # 100))
      then fill_line boundary font min_spacing
             (TextLine.add_word line word) words'
      else (Some (TextLine.fit_length line
                    (inject_Z (Boundary.length boundary))),
            word :: words')
  end.

(** The [for boundary in boundaries] loop: the lines appended and the
    words left in [words] at the end. *)
Fixpoint pack (boundaries : list Boundary.t) (font : ImageFont)
    (min_spacing : Q) (words : list string)
    : list TextLine.t * list string :=
  match boundaries with
  | [] => ([], words)
  | boundary :: boundaries' =>
      let line :=
        TextLine.mk min_spacing (Boundary.start_point boundary) font [] in
      let '(appended, words') :=
        fill_line boundary font min_spacing line words in
      let '(lines, remaining) :=
        pack boundaries' font min_spacing words' in
      (match appended with
       | Some l => l :: lines
       | None => lines
       end, remaining)
  end.

Definition align_text_to_boundaries (text : string)
    (boundaries : list Boundary.t) (font : ImageFont) (min_spacing : Q)
    : list TextLine.t :=
  fst (pack boundaries font min_spacing (Py.split text)).

End Packer.

(** ** [draw_text_lines] *)

Definition Color : Type := Z * Z * Z * Z.

(** One [draw.text(tuple(point), word, fill=color, font=font)] call. *)
Record DrawText := {
  xy : Q * Q;
  text : string;
  fill : Color;
  text_font : ImageFont
}.

(** The canvas [Image.new('RGBA', image.size, (0, 0, 0, 0))] and the text
    drawn on it, in drawing order. *)
Record Canvas := {
  canvas_size : Z * Z;
  drawn : list DrawText
}.

Section Renderer.
Context `{PIL}.
Local Open Scope Q_scope.

(** [for word in line.words]: draw, then advance [point[0]]. *)
Fixpoint draw_words (font : ImageFont) (color : Color) (word_spacing : Q)
    (point : Q * Q) (words : list string) : list DrawText :=
  match words with
  | [] => []
  | word :: words' =>
      {| xy := point; text := word; fill := color; text_font := font |}
      :: draw_words font color word_spacing
           (fst point + (get_word_width word font + word_spacing),
            snd point)
           words'
  end.

(** The single-word branch: [line.words = ['', line.words[0], '']] and
    [line.fit_length(length)] with [length = line.total_width]. *)
Definition pad_single_word (line : TextLine.t) : TextLine.t :=
  if (Py.len (TextLine.words line) =? 1)%Z then
    let length := TextLine.total_width line in
    TextLine.fit_length
      (TextLine.set_words line
         [EmptyString; nth 0 (TextLine.words line) EmptyString; EmptyString])
      length
  else line.

(** The body of [for line in lines]. *)
Definition draw_line (font : ImageFont) (color : Color) (line_height : Q)
    (line : TextLine.t) : list DrawText :=
  let point :=
    (inject_Z (fst (TextLine.start_point line)),
     inject_Z (snd (TextLine.start_point line)) + line_height * (8 # 10)) in
  let line := pad_single_word line in
  draw_words font color (TextLine.word_spacing line) point
    (TextLine.words line).

Definition draw_text_lines (lines : list TextLine.t) (font : ImageFont)
    (color : Color) : list DrawText :=
  let '(_, y0, _, y1) := getbbox font "A" in
  let line_height := y0 - y1 in
  flat_map (draw_line font color line_height) lines.

End Renderer.

(** ** [fit_text_to_image] *)

(** The variables of the search loop. *)
Record SearchState := {
  lower : Q;
  upper : Q;
  font_size : Q;
  lines : list TextLine.t;
  boundaries : list Boundary.t;
  font : option ImageFont
}.

(** How an iteration of the [while] loop ends: [break], or back to the loop
    test ([continue] and the normal end of the body alike). *)
Inductive Flow :=
| Break (st : SearchState)
| Next (st : SearchState).

Section Search.
Context `{PIL}.
Local Open Scope Q_scope.

Definition spacing_factors : list Q :=
  [2 # 10; 3 # 10; 4 # 10; 5 # 10; 6 # 10; 7 # 10; 8 # 10].

(** [sum([len(line.words) for line in lines])] *)
Definition placed_words (lines : list TextLine.t) : Z :=
  Py.sumZ (map (fun line => Py.len (TextLine.words line)) lines).

(** [for min_spacing in spacings]: [last] holds [lines, boundaries] as
    they are when the loop is reached. *)
Fixpoint try_spacings (image : Image) (text : string) (font : ImageFont)
    (font_size : Q) (total_words : Z) (spacings : list Q)
    (last : list TextLine.t * list Boundary.t)
    : option (list TextLine.t * list Boundary.t) :=
  match spacings with
  | [] => Some last
  | min_spacing :: spacings' =>
      boundaries ← get_text_boundaries image (Py.int font_size);
      let lines :=
        align_text_to_boundaries text boundaries font min_spacing in
      if ((Py.len lines =? Py.len boundaries)
          && (placed_words lines =? total_words))%Z
      then Some (lines, boundaries)
      else try_spacings image text font font_size total_words spacings'
             (lines, boundaries)
  end.

(** One pass through the body of [while upper - lower > 0.5]. *)
Definition loop_body (image : Image) (text : string) (font_fp : string)
    (total_words : Z) (st : SearchState) : option Flow :=
  let spacings := map (fun i => i * font_size st) spacing_factors in
  let font := load_font font_fp (Py.int (font_size st)) in
  '(lines, boundaries) ←
    try_spacings image text font (font_size st) total_words spacings
      (lines st, boundaries st);
  if (Py.len lines <? Py.len boundaries)%Z then
    if Py.geb (font_size st) (upper st) then
      let upper' := upper st + (upper st - lower st) * 2 in
      Some (Next {| lower := lower st; upper := upper';
                    font_size := upper';
                    lines := lines; boundaries := boundaries;
                    font := Some font |})
    else
      let lower' := font_size st in
      Some (Next {| lower := lower'; upper := upper st;
                    font_size := (upper st + lower') / 2;
                    lines := lines; boundaries := boundaries;
                    font := Some font |})
  else if (placed_words lines <? total_words)%Z then
    let upper' := font_size st in
    Some (Next {| lower := lower st; upper := upper';
                  font_size := (upper' + lower st) / 2;
                  lines := lines; boundaries := boundaries;
                  font := Some font |})
  else
    Some (Break {| lower := lower st; upper := upper st;
                   font_size := font_size st;
                   lines := lines; boundaries := boundaries;
                   font := Some font |}).

(** The loop test [upper - lower > 0.5]. *)
Definition loop_test (st : SearchState) : bool :=
  Py.ltb (5 # 10) (upper st - lower st).

(** The [while] loop. *)
Fixpoint search (fuel : nat) (image : Image) (text : string)
    (font_fp : string) (total_words : Z) (st : SearchState)
    : option SearchState :=
  if loop_test st then
    match fuel with
    | O => None
    | S fuel' =>
        flow ← loop_body image text font_fp total_words st;
        match flow with
        | Break st' => Some st'
        | Next st' => search fuel' image text font_fp total_words st'
        end
    end
  else Some st.

(** The working image: [fp.convert('RGBA')] resized to a width of at
    least 2000.  A zero-width image raises [ZeroDivisionError]; the new
    height is [int(scaled_width * image_ratio)] with the quotient and the
    product rounded as floats, so it can fall below the exact
    [scaled_width * height / width], and [resize] raises when it is 0.
    (An overflow of [Float.mul] is the infinity that [int] refuses.) *)
Definition working_image (fp : Image) : option (Z * Image) :=
  let image := fp in
  image_ratio ← Float.truediv (height image) (width image);
  let scaled_width := Z.max 2000 (width image) in
  scaled_width_f ← Float.of_int scaled_width;
  new_height ← Float.mul scaled_width_f image_ratio;
  image ← image_resize image (scaled_width, Py.int new_height);
  Some (scaled_width, image).

(** The state on reaching the loop. *)
Definition initial_state (scaled_width : Z) : SearchState :=
  let lower := 1 in
  let upper := inject_Z scaled_width / 10 in
  {| lower := lower; upper := upper; font_size := upper;
     lines := []; boundaries := []; font := None |}.

(** Everything up to and including the loop. *)
Definition fit_text_search (fuel : nat) (fp : Image) (text : string)
    (font_fp : string) : option (Image * SearchState) :=
  '(scaled_width, image) ← working_image fp;
  let total_words := Py.len (Py.split text) in
  st ← search fuel image text font_fp total_words
         (initial_state scaled_width);
  Some (image, st).

(** [fit_text_to_image]; drawing with [font = None] raises. *)
Definition fit_text_to_image (fuel : nat) (fp : Image) (text : string)
    (font_fp : string) (color : Color) : option Canvas :=
  '(image, st) ← fit_text_search fuel fp text font_fp;
  font ← font st;
  Some {| canvas_size := (width image, height image);
          drawn := draw_text_lines (lines st) font color |}.

End Search.

(** ** The [@cache] decorator of [get_word_width]

    [functools.cache] keeps a dictionary from the call's arguments to its
    result.  Positional and keyword arguments make different keys, so a key
    also records whether [font] was passed as [font=...].  Python compares
    the font objects of two keys by identity; the model compares their
    handles, which merges the entries of two loads of one file at one
    size, and those hold the same widths.  [Cached] repeats the functions
    above that reach [get_word_width], threading the dictionary. *)

Definition CacheKey : Type := string * ImageFont * bool.

Abbreviation Cache := (gmap CacheKey Q).

Module Cached.

(** A computation that reads and updates the cache and may raise. *)
Definition M (A : Type) : Type := Cache -> option (A * Cache).

Definition ret {A} (a : A) : M A := fun cache => Some (a, cache).

Definition bind {A B} (m : M A) (k : A -> M B) : M B :=
  fun cache =>
    match m cache with
    | Some (a, cache') => k a cache'
    | None => None
    end.

(** A computation that does not touch the cache. *)
Definition lift {A} (o : option A) : M A :=
  fun cache =>
    match o with
    | Some a => Some (a, cache)
    | None => None
    end.

Notation "'let*' x := m 'in' k" := (bind m (fun x => k))
  (at level 10, x pattern, m at level 200, k at level 200).

Section cached.
Context `{PIL}.
Local Open Scope Q_scope.

(** The decorated [get_word_width]: a hit returns the stored width, a
    miss calls the body and stores its result. *)
Definition get_word_width (by_keyword : bool) (word : string)
    (font : ImageFont) : M Q :=
  fun cache =>
    match cache !! (word, font, by_keyword) with
    | Some v => Some (v, cache)
    | None =>
        let v := get_word_width word font in
        Some (v, <[(word, font, by_keyword) := v]> cache)
    end.

(** [get_word_width.cache_clear()] *)
Definition cache_clear : M unit := fun _ => Some (tt, ∅).

(** [[f(x) for x in xs]] *)
Fixpoint comprehension {A B} (f : A -> M B) (xs : list A) : M (list B) :=
  match xs with
  | [] => ret []
  | x :: xs' =>
      let* y := f x in
      let* ys := comprehension f xs' in
      ret (y :: ys)
  end.

Definition words_width (self : TextLine.t) : M Q :=
  let* widths :=
    comprehension (fun w => get_word_width true w (TextLine.font self))
      (TextLine.words self) in
  ret (Py.sum widths).

Definition total_width (self : TextLine.t) : M Q :=
  let* words_width := words_width self in
  ret (words_width
       + TextLine.word_spacing self
         * inject_Z (Py.len (TextLine.words self))).

Definition fit_length (self : TextLine.t) (length : Q) : M TextLine.t :=
  if (1 <? Py.len (TextLine.words self))%Z then
    let space_count := (Py.len (TextLine.words self) - 1)%Z in
    let* words_width := words_width self in
    ret (TextLine.set_word_spacing self
           ((length - words_width) / inject_Z space_count))
  else ret (TextLine.set_word_spacing self 0).

Fixpoint fill_line (boundary : Boundary.t) (font : ImageFont)
    (min_spacing : Q) (line : TextLine.t) (words : list string)
    : M (option TextLine.t * list string) :=
  match words with
  | [] =>
      match TextLine.words line with
      | [] => ret (None, [])
      | _ :: _ =>
          let* l :=
            fit_length line (inject_Z (Boundary.length boundary)) in
          ret (Some l, [])
      end
  | word :: words' =>
      let* width := get_word_width false word font in
      let additional_width := width + min_spacing in
      let* total_width := total_width line in
      let new_width := additional_width + total_width in
      if Py.ltb new_width (inject_Z (Boundary.length boundary))
         || Py.ltb (new_width - inject_Z (Boundary.length boundary))
                   (min_spacing * (25 # 100))
      then fill_line boundary font min_spacing
             (TextLine.add_word line word) words'
      else
        let* l :=
          fit_length line (inject_Z (Boundary.length boundary)) in
        ret (Some l, word :: words')
  end.

Fixpoint pack (boundaries : list Boundary.t) (font : ImageFont)
    (min_spacing : Q) (words : list string)
    : M (list TextLine.t * list string) :=
  match boundaries with
  | [] => ret ([], words)
  | boundary :: boundaries' =>
      let line :=
        TextLine.mk min_spacing (Boundary.start_point boundary) font []
      in
      let* (appended, words') :=
        fill_line boundary font min_spacing line words in
      let* (lines, remaining) :=
        pack boundaries' font min_spacing words' in
      ret (match appended with
           | Some l => l :: lines
           | None => lines
           end, remaining)
  end.

Definition align_text_to_boundaries (text : string)
    (boundaries : list Boundary.t) (font : ImageFont) (min_spacing : Q)
    : M (list TextLine.t) :=
  let* (lines, _) :=
    pack boundaries font min_spacing (Py.split text) in
  ret lines.

Fixpoint draw_words (font : ImageFont) (color : Color)
    (word_spacing : Q) (point : Q * Q) (words : list string)
    : M (list DrawText) :=
  match words with
  | [] => ret []
  | word :: words' =>
      let* width := get_word_width true word font in
      let* rest :=
        draw_words font color word_spacing
          (fst point + (width + word_spacing), snd point) words' in
      ret ({| xy := point; text := word; fill := color;
              text_font := font |} :: rest)
  end.

Definition pad_single_word (line : TextLine.t) : M TextLine.t :=
  if (Py.len (TextLine.words line) =? 1)%Z then
    let* length := total_width line in
    fit_length
      (TextLine.set_words line
         [EmptyString; nth 0 (TextLine.words line) EmptyString; EmptyString])
      length
  else ret line.

Definition draw_line (font : ImageFont) (color : Color)
    (line_height : Q) (line : TextLine.t) : M (list DrawText) :=
  let point :=
    (inject_Z (fst (TextLine.start_point line)),
     inject_Z (snd (TextLine.start_point line))
     + line_height * (8 # 10)) in
  let* line := pad_single_word line in
  draw_words font color (TextLine.word_spacing line) point
    (TextLine.words line).

Definition draw_text_lines (lines : list TextLine.t) (font : ImageFont)
    (color : Color) : M (list DrawText) :=
  let '(_, y0, _, y1) := getbbox font "A" in
  let line_height := y0 - y1 in
  let* drawn := comprehension (draw_line font color line_height) lines in
  ret (concat drawn).

Fixpoint try_spacings (image : Image) (text : string) (font : ImageFont)
    (font_size : Q) (total_words : Z) (spacings : list Q)
    (last : list TextLine.t * list Boundary.t)
    : M (list TextLine.t * list Boundary.t) :=
  match spacings with
  | [] => ret last
  | min_spacing :: spacings' =>
      let* boundaries :=
        lift (get_text_boundaries image (Py.int font_size)) in
      let* lines :=
        align_text_to_boundaries text boundaries font min_spacing in
      if ((Py.len lines =? Py.len boundaries)
          && (placed_words lines =? total_words))%Z
      then ret (lines, boundaries)
      else try_spacings image text font font_size total_words spacings'
             (lines, boundaries)
  end.

Definition loop_body (image : Image) (text : string) (font_fp : string)
    (total_words : Z) (st : SearchState) : M Flow :=
  let spacings := map (fun i => i * font_size st) spacing_factors in
  let font := load_font font_fp (Py.int (font_size st)) in
  let* (lines, boundaries) :=
    try_spacings image text font (font_size st) total_words spacings
      (lines st, boundaries st) in
  if (Py.len lines <? Py.len boundaries)%Z then
    if Py.geb (font_size st) (upper st) then
      let upper' := upper st + (upper st - lower st) * 2 in
      ret (Next {| lower := lower st; upper := upper';
                   font_size := upper';
                   lines := lines; boundaries := boundaries;
                   font := Some font |})
    else
      let lower' := font_size st in
      ret (Next {| lower := lower'; upper := upper st;
                   font_size := (upper st + lower') / 2;
                   lines := lines; boundaries := boundaries;
                   font := Some font |})
  else if (placed_words lines <? total_words)%Z then
    let upper' := font_size st in
    ret (Next {| lower := lower st; upper := upper';
                 font_size := (upper' + lower st) / 2;
                 lines := lines; boundaries := boundaries;
                 font := Some font |})
  else
    ret (Break {| lower := lower st; upper := upper st;
                  font_size := font_size st;
                  lines := lines; boundaries := boundaries;
                  font := Some font |}).

Fixpoint search (fuel : nat) (image : Image) (text : string)
    (font_fp : string) (total_words : Z) (st : SearchState)
    : M SearchState :=
  if loop_test st then
    match fuel with
    | O => lift None
    | S fuel' =>
        let* flow := loop_body image text font_fp total_words st in
        match flow with
        | Break st' => ret st'
        | Next st' => search fuel' image text font_fp total_words st'
        end
    end
  else ret st.

Definition fit_text_search (fuel : nat) (fp : Image) (text : string)
    (font_fp : string) : M (Image * SearchState) :=
  let* (scaled_width, image) := lift (working_image fp) in
  let total_words := Py.len (Py.split text) in
  let* st :=
    search fuel image text font_fp total_words
      (initial_state scaled_width) in
  ret (image, st).

Definition fit_text_to_image (fuel : nat) (fp : Image) (text : string)
    (font_fp : string) (color : Color) : M Canvas :=
  let* (image, st) := fit_text_search fuel fp text font_fp in
  let* font := lift (font st) in
  let* drawn := draw_text_lines (lines st) font color in
  let* _ := cache_clear in
  ret {| canvas_size := (width image, height image); drawn := drawn |}.

End cached.
End Cached.

(** ** Concrete data for examples *)

(** A monospaced font engine: a word of [n] characters at size [s] has the
    bounding box [(0, 0, n * s, s)]; [resize] keeps the pixels and takes
    the requested size. *)
Definition mono_pil : PIL := {|
  getbbox := fun font word =>
    (0%Q, 0%Q, inject_Z (Z.of_nat (String.length word) * size font),
     inject_Z (size font));
  resize := fun image '(w, h) =>
    {| width := w; height := h; getpixel := getpixel image |}
|}.

Definition mono10 : ImageFont := load_font "mono.ttf" 10.

(** The boundary from (0, 50) to (100, 50), of length 100. *)
Definition wide_boundary : Boundary.t := Boundary.mk (0, 50) (100, 50).

(** A line of two words with a spacing of 5. *)
Definition two_word_line : TextLine.t :=
  TextLine.mk 5 (0, 50) mono10 ["a"%string; "b"%string].



(** The boundary from (10, 50) to (110, 50), of length 100. *)
Definition offset_boundary : Boundary.t := Boundary.mk (10, 50) (110, 50).

Definition black : Color := (0, 0, 0, 255).

(** Images of one colour: fully opaque, and fully transparent. *)
Definition opaque_image (w h : Z) : Image :=
  {| width := w; height := h; getpixel := fun _ => (255, 255, 255, 255) |}.

Definition transparent_image (w h : Z) : Image :=
  {| width := w; height := h; getpixel := fun _ => (0, 0, 0, 0) |}.

(** Concrete images for examples: rows of alpha values, transparent outside
    the listed pixels. *)
Definition image_of_alpha (w h : Z) (rows : list (list Z)) : Image :=
  {| width := w; height := h;
     getpixel := fun '(x, y) =>
       (0, 0, 0,
        if (0 <=? x) && (0 <=? y)
        then nth (Z.to_nat x) (nth (Z.to_nat y) rows []) 0
        else 0) |}.

(** One opaque pixel at (1, 1) in a 4 x 3 image. *)
Definition dot_image : Image :=
  image_of_alpha 4 3 [[0; 0; 0; 0]; [0; 255; 0; 0]; [0; 0; 0; 0]].

(** ** Predicates used in the statements *)

(** The descending run [p, p-1, ..., p-n+1]. *)
Definition down (p : Z) (n : nat) : list Z :=
  map (fun i => p + Z.of_nat i * -1) (seq 0 n).

(** What the scanner guarantees of a span: it lies on one row inside the
    image and runs left to right. *)
Definition span_ok (image : Image) (b : Boundary.t) : Prop :=
  0 <= fst (Boundary.start_point b)
  /\ fst (Boundary.start_point b) <= fst (Boundary.end_point b)
  /\ fst (Boundary.end_point b) <= width image - 1
  /\ snd (Boundary.start_point b) = snd (Boundary.end_point b).


(** Pixel [(i, y)] is what the search looks for. *)
Definition is_target (image : Image) (y : Z) (find_transparent : bool)
    (i : Z) : Prop :=
  is_target_pixel find_transparent (getpixel image (i, y)) = true.

Section Predicates.
Context `{PIL}.
Local Open Scope Q_scope.

(** The test of the [if] in the packer's loop. *)
Definition accept_cond (boundary : Boundary.t) (font : ImageFont)
    (min_spacing : Q) (line : TextLine.t) (word : string) : Prop :=
  let new_width :=
    (get_word_width word font + min_spacing) + TextLine.total_width line in
  new_width < inject_Z (Boundary.length boundary)
  \/ new_width - inject_Z (Boundary.length boundary)
     < min_spacing * (25 # 100).

(** The width of a line in the spec's words:
    [words_width + word_spacing * (word_count - 1)]. *)
Definition spec_total_width (line : TextLine.t) : Q :=
  TextLine.words_width line
  + TextLine.word_spacing line
    * inject_Z (Py.len (TextLine.words line) - 1).


(** Every stored width is the width the body computes. *)
Definition cache_ok (cache : Cache) : Prop :=
  forall word font by_keyword v,
    cache !! (word, font, by_keyword) = Some v ->
    v = get_word_width word font.

(** From a cache in order, [m] gives what the cache-free function gives
    (raising where it raises) and leaves the cache in order. *)
Definition computes {A} (m : Cached.M A) (r : option A) : Prop :=
  forall cache, cache_ok cache ->
    match r with
    | Some a => exists cache', m cache = Some (a, cache') /\ cache_ok cache'
    | None => m cache = None
    end.

End Predicates.

(** ** Predicates for further properties *)

(** A span as the scanner finds it on row [y] when it searches from column
    [lo]: it starts on an opaque pixel at or right of [lo], and the pixel
    after its end is transparent or is the right edge. *)
Definition span_at (image : Image) (y lo : Z) (b : Boundary.t) : Prop :=
  snd (Boundary.start_point b) = y
  /\ snd (Boundary.end_point b) = y
  /\ lo <= fst (Boundary.start_point b)
  /\ fst (Boundary.start_point b) <= fst (Boundary.end_point b)
  /\ fst (Boundary.end_point b) <= width image - 1
  /\ is_target image y false (fst (Boundary.start_point b))
  /\ (fst (Boundary.end_point b) + 1 = width image
      \/ is_target image y true (fst (Boundary.end_point b) + 1)).

(** The spans of one row, each starting at least two columns after the end
    of the one before. *)
Fixpoint chain (image : Image) (y lo : Z) (bs : list Boundary.t) : Prop :=
  match bs with
  | [] => True
  | b :: rest =>
      span_at image y lo b
      /\ chain image y (fst (Boundary.end_point b) + 2) rest
  end.

(** Scan order: an earlier row, or the same row and further left with a
    gap of at least one pixel. *)
Definition scan_before (b1 b2 : Boundary.t) : Prop :=
  snd (Boundary.start_point b1) < snd (Boundary.start_point b2)
  \/ (snd (Boundary.start_point b1) = snd (Boundary.start_point b2)
      /\ fst (Boundary.end_point b1) + 2 <= fst (Boundary.start_point b2)).

(** The tokens the renderer draws for a line with the words [ws]. *)
Definition shown_words (ws : list string) : list string :=
  match ws with
  | [w] => [EmptyString; w; EmptyString]
  | _ => ws
  end.

(** The bounds of the search are in order. *)
Definition bounds_ok (st : SearchState) : Prop :=
  (1 <= lower st /\ lower st <= font_size st /\ font_size st <= upper st)%Q.

(** The layout a state holds is a packing of [text]: its boundaries are
    those scanned at the size of its font, and its lines are what the
    packer makes of them with that font and some minimum spacing. *)
Definition layout_ok `{PIL} (image : Image) (text font_fp : string)
    (st : SearchState) : Prop :=
  exists font0 min_spacing,
    font st = Some font0
    /\ font_file font0 = font_fp
    /\ 1 <= size font0
    /\ get_text_boundaries image (size font0) = Some (boundaries st)
    /\ lines st
       = align_text_to_boundaries text (boundaries st) font0 min_spacing.

(** The search's success test: a line for every boundary and every word
    placed. *)
Definition fits (text : string) (st : SearchState) : Prop :=
  Py.len (lines st) = Py.len (boundaries st)
  /\ placed_words (lines st) = Py.len (Py.split text).

(** The state a pass through the loop body ends in. *)
Definition flow_state (flow : Flow) : SearchState :=
  match flow with
  | Break st | Next st => st
  end.

(** ** The colour of [app.fit_text]

    The request handler turns the colour string of the request into the
    RGBA tuple it passes to [fit_text_to_image]:
    [color_hex = inp.color.lstrip('#').ljust(8, 'f')] and
    [tuple(int(color_hex[i:i + 2], 16) for i in (0, 2, 4, 6))]. *)
Module PyStr.

(** [s.lstrip(c)] for a one-character set. *)
Fixpoint lstrip (c : ascii) (s : string) : string :=
  match s with
  | String c' rest => if Ascii.eqb c' c then lstrip c rest else s
  | EmptyString => s
  end.

(** [n] copies of [c]. *)
Fixpoint repeat (c : ascii) (n : nat) : string :=
  match n with
  | O => EmptyString
  | S n' => String c (repeat c n')
  end.

(** [s.ljust(n, c)] *)
Definition ljust (n : nat) (c : ascii) (s : string) : string :=
  (s ++ repeat c (n - String.length s))%string.

(** [s[i:j]] for [0 <= i <= j]. *)
Definition slice (i j : nat) (s : string) : string :=
  substring i (j - i) s.

(** The characters [int] skips around a number: TAB..CR and space, and
    the Unicode spaces NEL and NBSP. *)
Definition int_space (c : ascii) : bool :=
  let n := Z.of_nat (nat_of_ascii c) in
  ((9 <=? n) && (n <=? 13)) || (n =? 32) || (n =? 133) || (n =? 160).

(** The value of a base-16 digit. *)
Definition digit16 (c : ascii) : option Z :=
  let n := Z.of_nat (nat_of_ascii c) in
  if (48 <=? n) && (n <=? 57) then Some (n - 48)
  else if (97 <=? n) && (n <=? 102) then Some (n - 87)
  else if (65 <=? n) && (n <=? 70) then Some (n - 55)
  else None.

Fixpoint skip_space (s : string) : string :=
  match s with
  | String c rest => if int_space c then skip_space rest else s
  | EmptyString => s
  end.

(** The digits of a number, single underscores allowed between them:
    [acc] is the value so far, [digits] says whether a digit was read and
    [prev_underscore] whether the last character was an underscore.  The
    result is the value and the text after the digits. *)
Fixpoint digits16 (acc : Z) (digits prev_underscore : bool) (s : string)
    : option (Z * string) :=
  match s with
  | String c rest =>
      if Ascii.eqb c "_" then
        if prev_underscore then None
        else digits16 acc digits true rest
      else
        match digit16 c with
        | Some d => digits16 (16 * acc + d) true false rest
        | None =>
            if prev_underscore || negb digits then None else Some (acc, s)
        end
  | EmptyString =>
      if prev_underscore || negb digits then None else Some (acc, s)
  end.

(** [int(s, 16)]; [None] is [ValueError]. *)
Definition int16 (s : string) : option Z :=
  let s := skip_space s in
  let '(sign, s) :=
    match s with
    | String "+" rest => (1, rest)
    | String "-" rest => (-1, rest)
    | _ => (1, s)
    end in
  let s :=
    match s with
    | String "0" (String x rest) =>
        if Ascii.eqb x "x" || Ascii.eqb x "X" then
          match rest with
          | String "_" rest' => rest'
          | _ => rest
          end
        else s
    | _ => s
    end in
  match s with
  | String "_" _ => None
  | _ =>
      '(v, rest) ← digits16 0 false false s;
      match skip_space rest with
      | EmptyString => Some (sign * v)
      | String _ _ => None
      end
  end.

End PyStr.

(** The colour tuple of [fit_text]. *)
Definition fit_text_color (color : string) : option Color :=
  let color_hex := PyStr.ljust 8 "f" (PyStr.lstrip "#" color) in
  r ← PyStr.int16 (PyStr.slice 0 2 color_hex);
  g ← PyStr.int16 (PyStr.slice 2 4 color_hex);
  b ← PyStr.int16 (PyStr.slice 4 6 color_hex);
  a ← PyStr.int16 (PyStr.slice 6 8 color_hex);
  Some (r, g, b, a).

(** Every character a Rocq string can hold. *)
Definition all_ascii : list ascii := map ascii_of_nat (seq 0 256).

(** Two opaque runs on row 2 and a fully opaque row 4, in an 8 x 5
    image. *)
Definition striped_image : Image :=
  image_of_alpha 8 5
    [[]; []; [0; 9; 9; 0; 0; 9; 9; 9]; []; [9; 9; 9; 9; 9; 9; 9; 9]].

(* ===================================================================== *)
(** * Part II: properties                                                 *)
(* ===================================================================== *)

(** ** The builtins and the model on small inputs *)

Example split_on_whitespace :
  Py.split "  ab  c d " = ["ab"%string; "c"%string; "d"%string].
Proof. reflexivity. Qed.

Example range_steps :
  Py.range 2 10 3 = Some [2; 5; 8] /\ Py.range 2 (-1) (-1) = Some [2; 1; 0]
  /\ Py.range 3 3 1 = Some [] /\ Py.range 1 5 0 = None.
Proof. repeat split. Qed.

Example int_truncates : Py.int (7 # 2) = 3 /\ Py.int (- 7 # 2) = -3.
Proof. split; reflexivity. Qed.

(** Rounding to doubles: [0.1], a tie at 54 bits going to the even
    neighbour, the overflow, and a division by zero. *)
Example float_rounds :
  Float.round (1 # 10) = Some (3602879701896397 # 36028797018963968)%Q
  /\ Float.of_int (2 ^ 53 + 1) = Some (inject_Z (2 ^ 53))
  /\ Float.of_int (2 ^ 53 + 3) = Some (inject_Z (2 ^ 53 + 4))
  /\ Float.of_int (2 ^ 1024) = None
  /\ Float.truediv 1 0 = None.
Proof. repeat split; vm_compute; reflexivity. Qed.

(** The height of the working image: [int(2001 * (126 / 2001))] is 125
    and [int(2004 * (1 / 2004))] is 0, a size [resize] refuses; a
    2000 x 300 image keeps its size and is copied. *)
Example working_image_heights :
  (r ← @working_image mono_pil (opaque_image 2001 126);
   Some (fst r, width (snd r), height (snd r))) = Some (2001, 2001, 125)
  /\ @working_image mono_pil (opaque_image 2004 1) = None
  /\ @working_image mono_pil (opaque_image 2000 300)
     = Some (2000, opaque_image 2000 300)
  /\ (r ← @working_image mono_pil (opaque_image 500 100);
      Some (fst r, width (snd r), height (snd r))) = Some (2000, 2000, 400)
  /\ @working_image mono_pil (opaque_image 0 300) = None.
Proof. repeat split; vm_compute; reflexivity. Qed.

(** Two spans on the first scanned row, one on the second. *)
Example scan_two_rows :
  get_text_boundaries
    (image_of_alpha 8 5
       [[]; []; [0; 9; 9; 0; 0; 9; 9; 9]; []; [9; 9; 9; 9; 9; 9; 9; 9]]) 2
  = Some [Boundary.mk (1, 2) (2, 2); Boundary.mk (5, 2) (7, 2);
          Boundary.mk (0, 4) (7, 4)].
Proof. reflexivity. Qed.

(** A word wider than every boundary is never placed: each boundary gets
    an empty line and the word stays pending. *)
Example too_wide_word_blocks_the_stream :
  @pack mono_pil [wide_boundary; wide_boundary] mono10 5
    ["aaaaaaaaaaaaaaaaaaaaaaaa"%string; "b"%string]
  = ([TextLine.mk 0 (0, 50) mono10 []; TextLine.mk 0 (0, 50) mono10 []],
     ["aaaaaaaaaaaaaaaaaaaaaaaa"%string; "b"%string]).
Proof. reflexivity. Qed.

(** ** The scanner *)

Lemma down_S p n : down p (S n) = p :: down (p - 1) n.
Proof.
  unfold down. simpl. f_equal; [lia|].
  rewrite <- seq_shift, map_map. apply map_ext. intros; lia.
Qed.

Lemma range_down p m :
  Py.range p m (-1) = Some (down p (Z.to_nat (p - m))).
Proof.
  unfold Py.range, down. simpl. do 3 f_equal.
  rewrite Z.div_1_r. lia.
Qed.

Section Scanner.
Variable image : Image.
Variable y : Z.
Variable ft : bool.

Local Abbreviation target := (is_target image y ft).

Lemma backtrack_down n : forall p x r,
  r = backtrack image y ft (down p n) x ->
  (n = O /\ r = x) \/
  (n <> O /\ p - Z.of_nat n + 1 <= r <= p + 1 /\
   (forall i, r <= i <= p -> target i) /\ (target p -> r <= p)).
Proof.
  induction n as [|n IH]; intros p x r Hr; [left; split; [reflexivity|exact Hr]|].
  right. rewrite down_S in Hr. simpl in Hr.
  destruct (is_target_pixel ft (getpixel image (p, y))) eqn:E.
  - destruct (IH (p - 1) p r Hr) as [[Hn Hp]|(Hn & Hb & Hall & _)].
    + subst r. repeat split; try lia.
      intros i Hi. replace i with p by lia. exact E.
    + repeat split; try lia.
      intros i Hi. destruct (Z.eq_dec i p) as [->|]; [exact E|].
      apply Hall. lia.
  - subst r. repeat split; try lia.
    intros H. unfold is_target in H. congruence.
Qed.

Variable step : Z.
Hypothesis step_pos : 0 < step.

Lemma find_pixel_loop_spec fuel : forall x,
  0 <= x -> (Z.to_nat (width image - x) < fuel)%nat ->
  exists r, find_pixel_loop fuel image x y step ft = Some r /\
    ((width image <= r /\ (width image <= x -> r = x)) \/
     (0 <= r < width image /\ target r /\ x < width image /\
      (target x -> r <= x /\ forall i, r <= i <= x -> target i) /\
      (~ target x -> x < r))).
Proof.
  induction fuel as [|fuel IH]; intros x Hx Hf; [lia|].
  cbn [find_pixel_loop]. destruct (x <? width image) eqn:Ew.
  - apply Z.ltb_lt in Ew.
    destruct (is_target_pixel ft (getpixel image (x, y))) eqn:Et.
    + rewrite range_down. cbn [mbind option_bind].
      set (n := Z.to_nat (x - Z.max (-1) (x - step))).
      destruct (backtrack_down n x x _ eq_refl) as [[Hn _]|(Hn & Hb & Hall & Hle)];
        [lia|].
      eexists; split; [reflexivity|]. right.
      specialize (Hle Et).
      split; [lia|]. split; [apply Hall; lia|]. split; [lia|].
      split; [intros _; split; [lia|exact Hall]|].
      intros Hn'. destruct (Hn' Et).
    + destruct (IH (x + step)) as (r & -> & Hr); [lia|lia|].
      exists r; split; [reflexivity|].
      destruct Hr as [[Hw _]|(Hb & Htr & _ & Hyes & Hno)].
      * left. split; [exact Hw|lia].
      * right. split; [lia|]. split; [exact Htr|]. split; [lia|].
        split; [intros Hx'; unfold is_target in Hx'; congruence|].
        intros _.
        destruct (is_target_pixel ft (getpixel image (x + step, y))) eqn:E2.
        -- destruct (Hyes E2) as [_ Hall].
           destruct (Z_lt_le_dec x r) as [|Hrx]; [assumption|].
           assert (target x) as Hx' by (apply Hall; lia).
           unfold is_target in Hx'. congruence.
        -- assert (x + step < r); [|lia].
           apply Hno. unfold is_target. congruence.
  - apply Z.ltb_ge in Ew. eexists; split; [reflexivity|].
    left. split; [lia|reflexivity].
Qed.

Lemma find_pixel_spec x :
  0 <= x ->
  exists r, find_pixel image x y step ft = Some (r, y) /\
    r <= width image /\ (width image <= x -> r = width image) /\
    (r < width image ->
      0 <= r /\ target r /\
      (target x -> r <= x /\ forall i, r <= i <= x -> target i) /\
      (~ target x -> x < r)).
Proof.
  intros Hx. unfold find_pixel.
  destruct (find_pixel_loop_spec (S (Z.to_nat (width image - x))) x)
    as (r & -> & Hr); [lia|lia|].
  cbn [mbind option_bind].
  destruct Hr as [[Hw Hsame]|(Hb & Htr & Hxw & Hyes & Hno)].
  - replace (r <? width image) with false by (symmetry; apply Z.ltb_ge; lia).
    cbn [andb]. exists (Z.min r (width image)). split; [reflexivity|].
    split; [lia|]. split; [lia|]. lia.
  - unfold is_target in Htr. rewrite Htr, andb_false_r.
    exists (Z.min r (width image)). split; [reflexivity|].
    rewrite Z.min_l by lia.
    split; [lia|]. split; [lia|]. intros _.
    split; [lia|]. split; [exact Htr|]. split; [exact Hyes|exact Hno].
Qed.

(** A row without target pixels sends the search to the right edge. *)
Lemma find_pixel_none x :
  0 <= x -> (forall i, ~ target i) ->
  find_pixel image x y step ft = Some (width image, y).
Proof.
  intros Hx Hnone.
  destruct (find_pixel_spec x Hx) as (r & -> & Hle & _ & Hlt).
  destruct (Z_lt_le_dec r (width image)) as [Hr|Hr].
  - destruct (Hlt Hr) as (_ & Htr & _). destruct (Hnone _ Htr).
  - do 2 f_equal. lia.
Qed.

End Scanner.

(** Opaque and transparent exclude each other. *)
Lemma target_exclusive px :
  is_target_pixel true px = true -> is_target_pixel false px = false.
Proof.
  unfold is_target_pixel. cbn [andb negb orb]. rewrite orb_false_r.
  intros H. apply Z.eqb_eq in H. rewrite H. reflexivity.
Qed.

Lemma scan_row_spec image y step :
  0 < step ->
  forall fuel x,
    0 <= x ->
    (x = 0 \/ width image <= x
     \/ is_target_pixel false (getpixel image (x, y)) = false) ->
    (Z.to_nat (width image - x) < fuel)%nat ->
    exists bs, scan_row fuel image y step x = Some bs
               /\ Forall (span_ok image) bs.
Proof.
  intros Hstep. induction fuel as [|fuel IH]; intros x Hx Hinv Hf; [lia|].
  cbn [scan_row].
  destruct (find_pixel_spec image y false step Hstep x Hx)
    as (x1 & -> & Hle1 & Hge1 & Hlt1).
  unfold is_target in Hlt1.
  cbn [mbind option_bind].
  destruct (x1 =? width image) eqn:E1.
  { exists []. split; [reflexivity|constructor]. }
  apply Z.eqb_neq in E1.
  destruct Hlt1 as (H0 & Hop & Hyes & Hno); [lia|].
  assert (x <= x1) as Hxx1.
  { destruct (is_target_pixel false (getpixel image (x, y))) eqn:Ex.
    - destruct Hinv as [->|[Hw|Hc]]; [lia| |congruence].
      specialize (Hge1 Hw). lia.
    - assert (x < x1); [|lia]. apply Hno. congruence. }
  destruct (find_pixel_spec image y true step Hstep (x1 + 1))
    as (e & -> & Hle2 & Hge2 & Hlt2); [lia|].
  unfold is_target in Hlt2.
  cbn [mbind option_bind].
  assert (x1 + 1 <= e) as He.
  { destruct (Z_lt_le_dec e (width image)) as [Hew|Hew]; [|lia].
    destruct (Hlt2 Hew) as (_ & _ & Hyes2 & Hno2).
    destruct (is_target_pixel true (getpixel image (x1 + 1, y))) eqn:Et.
    - destruct (Hyes2 eq_refl) as [_ Hall].
      destruct (Z_lt_le_dec x1 e) as [|Hex]; [lia|].
      assert (is_target_pixel true (getpixel image (x1, y)) = true) as Htr
        by (apply Hall; lia).
      apply target_exclusive in Htr. congruence.
    - assert (x1 + 1 < e); [|lia]. apply Hno2. congruence. }
  destruct (IH e) as (rest & -> & Hrest); [lia| |lia|].
  { destruct (Z_lt_le_dec e (width image)) as [Hew|Hew]; [|right; left; lia].
    right; right. destruct (Hlt2 Hew) as (_ & Htr & _).
    apply target_exclusive. exact Htr. }
  eexists; split; [reflexivity|].
  constructor; [|exact Hrest].
  unfold span_ok; cbn. lia.
Qed.

Lemma mapM_Forall {A B} (f : A -> option B) (P : B -> Prop) (l : list A) :
  (forall x, exists v, f x = Some v /\ P v) ->
  exists k, mapM f l = Some k /\ Forall P k.
Proof.
  intros Hf. induction l as [|a l (k & Hk & HP)].
  - exists []. split; [reflexivity|constructor].
  - destruct (Hf a) as (v & Hv & Pv). exists (v :: k).
    cbn. rewrite Hv. cbn. rewrite Hk. cbn. split; [reflexivity|].
    constructor; assumption.
Qed.

Lemma range_pos start stop step :
  0 < step -> exists ys, Py.range start stop step = Some ys.
Proof.
  intros H. unfold Py.range.
  replace (step =? 0) with false by (symmetry; apply Z.eqb_neq; lia).
  replace (0 <? step) with true by (symmetry; apply Z.ltb_lt; lia).
  eexists; reflexivity.
Qed.

Lemma get_text_boundaries_spec image boundaries_spacing :
  0 < boundaries_spacing ->
  exists bs, get_text_boundaries image boundaries_spacing = Some bs
             /\ Forall (span_ok image) bs.
Proof.
  intros Hs. unfold get_text_boundaries.
  destruct (range_pos boundaries_spacing (height image) boundaries_spacing Hs)
    as (ys & ->).
  cbn [mbind option_bind].
  destruct (mapM_Forall
              (fun y => scan_row (S (Z.to_nat (width image))) image y
                          boundaries_spacing 0)
              (Forall (span_ok image)) ys) as (rows & -> & Hrows).
  { intros y. apply scan_row_spec; [exact Hs|lia|left; reflexivity|lia]. }
  cbn [mbind option_bind]. eexists; split; [reflexivity|].
  apply Forall_concat. exact Hrows.
Qed.


(** C3, as stated: the scanner emits a zero-length boundary for an opaque
    run of a single pixel, so "every emitted boundary has length > 0"
    fails. *)
Lemma scanner_emits_zero_length :
  exists b, get_text_boundaries dot_image 1 = Some [b]
            /\ ~ (0 < Boundary.length b).
Proof.
  exists (Boundary.mk (1, 1) (1, 1)). split; [reflexivity|].
  unfold Boundary.length; cbn [Boundary.start_point Boundary.end_point fst]. lia.
Qed.

(** C3, amended: for every image and positive row spacing the scanner
    returns, and each boundary it emits has its end at or right of its
    start, length [end.x - start.x >= 0], and end x-coordinate at most
    [image.width - 1]. *)
Theorem scanner_boundaries_inside image boundaries_spacing :
  0 < boundaries_spacing ->
  exists bs, get_text_boundaries image boundaries_spacing = Some bs
    /\ Forall (fun b =>
          0 <= Boundary.length b
          /\ Boundary.length b
             = fst (Boundary.end_point b) - fst (Boundary.start_point b)
          /\ fst (Boundary.end_point b) <= width image - 1
          /\ fst (Boundary.end_point b) <= width image) bs.
Proof.
  intros Hs.
  destruct (get_text_boundaries_spec image boundaries_spacing Hs)
    as (bs & Hbs & Hok).
  exists bs. split; [exact Hbs|].
  eapply Forall_impl; [exact Hok|].
  intros b (H0 & Hle & Hw & _). unfold Boundary.length.
  cbv beta. lia.
Qed.

Lemma scanner_boundaries_inside_witness :
  exists bs, get_text_boundaries dot_image 1 = Some bs
    /\ Forall (fun b =>
          0 <= Boundary.length b
          /\ Boundary.length b
             = fst (Boundary.end_point b) - fst (Boundary.start_point b)
          /\ fst (Boundary.end_point b) <= width dot_image - 1
          /\ fst (Boundary.end_point b) <= width dot_image) bs.
Proof. apply (scanner_boundaries_inside dot_image 1). lia. Defined.

(** ** Numbers and lists *)

Lemma ltb_spec (a b : Q) : Py.ltb a b = true <-> (a < b)%Q.
Proof.
  unfold Py.ltb. destruct (Qlt_le_dec a b) as [Hlt|Hle].
  - split; [intros _; exact Hlt|reflexivity].
  - split; [discriminate|]. intros Hlt. exfalso.
    exact (Qlt_not_le _ _ Hlt Hle).
Qed.

Lemma geb_spec (a b : Q) : Py.geb a b = true <-> (b <= a)%Q.
Proof.
  unfold Py.geb. destruct (Qlt_le_dec a b) as [Hlt|Hle].
  - split; [discriminate|]. intros Hle. exfalso.
    exact (Qlt_not_le _ _ Hlt Hle).
  - split; [intros _; exact Hle|reflexivity].
Qed.

Lemma sum_snoc (xs : list Q) (x : Q) : Py.sum (xs ++ [x]) = (Py.sum xs + x)%Q.
Proof. unfold Py.sum. rewrite fold_left_app. reflexivity. Qed.

Lemma sum_nonneg (xs : list Q) :
  Forall (fun x => (0 <= x)%Q) xs -> (0 <= Py.sum xs)%Q.
Proof.
  induction xs as [|x xs IH] using rev_ind; intros Hall.
  - unfold Py.sum; cbn. lra.
  - rewrite sum_snoc. apply Forall_app in Hall as [Hxs Hx].
    specialize (IH Hxs). inversion Hx; subst. lra.
Qed.

Lemma len_snoc {A} (xs : list A) (x : A) : Py.len (xs ++ [x]) = Py.len xs + 1.
Proof. unfold Py.len. rewrite length_app. cbn. lia. Qed.

(** ** [TextLine] *)

Section TextLineFacts.
Context `{PIL}.
Local Open Scope Q_scope.

Lemma words_width_add_word line word :
  TextLine.words_width (TextLine.add_word line word)
  = TextLine.words_width line + get_word_width word (TextLine.font line).
Proof.
  unfold TextLine.words_width, TextLine.add_word; cbn.
  rewrite map_app. cbn. apply sum_snoc.
Qed.

Lemma total_width_add_word line word :
  TextLine.total_width (TextLine.add_word line word)
  == TextLine.total_width line
     + (get_word_width word (TextLine.font line)
        + TextLine.word_spacing line).
Proof.
  unfold TextLine.total_width. rewrite words_width_add_word.
  cbn [TextLine.add_word TextLine.words TextLine.word_spacing].
  rewrite len_snoc, inject_Z_plus. ring.
Qed.

Lemma words_width_nonneg line :
  (forall w, 0 <= get_word_width w (TextLine.font line)) ->
  0 <= TextLine.words_width line.
Proof.
  intros Hw. apply sum_nonneg, Forall_forall.
  intros x Hx. apply list_elem_of_In, in_map_iff in Hx as (w & <- & _).
  apply Hw.
Qed.

Lemma fit_length_words line length :
  TextLine.words (TextLine.fit_length line length) = TextLine.words line.
Proof. unfold TextLine.fit_length. destruct (_ <? _)%Z; reflexivity. Qed.

Lemma fit_length_start_point line length :
  TextLine.start_point (TextLine.fit_length line length)
  = TextLine.start_point line.
Proof. unfold TextLine.fit_length. destruct (_ <? _)%Z; reflexivity. Qed.

Lemma fit_length_font line length :
  TextLine.font (TextLine.fit_length line length) = TextLine.font line.
Proof. unfold TextLine.fit_length. destruct (_ <? _)%Z; reflexivity. Qed.

Lemma words_width_fit_length line length :
  TextLine.words_width (TextLine.fit_length line length)
  = TextLine.words_width line.
Proof.
  unfold TextLine.words_width.
  rewrite fit_length_words, fit_length_font. reflexivity.
Qed.

(** [fit_length] solves the spacing of a line of two or more words so
    that the words and the gaps between them add up to [length]. *)
Lemma fit_length_solves line length :
  (1 < Py.len (TextLine.words line))%Z ->
  TextLine.words_width line
  + TextLine.word_spacing (TextLine.fit_length line length)
    * inject_Z (Py.len (TextLine.words line) - 1)
  == length.
Proof.
  intros Hn. unfold TextLine.fit_length.
  replace (1 <? Py.len (TextLine.words line))%Z with true
    by (symmetry; apply Z.ltb_lt; exact Hn).
  cbn [TextLine.set_word_spacing TextLine.word_spacing].
  field. intros Hz. unfold Qeq in Hz. cbn in Hz. lia.
Qed.

(** In general [total_width] counts one gap per word, one more than the
    gaps between the words. *)
Lemma total_width_gap_per_word (line : TextLine.t) :
  (TextLine.total_width line
   == TextLine.words_width line
      + TextLine.word_spacing line
        * inject_Z (Py.len (TextLine.words line) - 1)
      + TextLine.word_spacing line).
Proof.
  assert (inject_Z (Py.len (TextLine.words line) - 1)
          == inject_Z (Py.len (TextLine.words line)) - 1) as ->
    by (unfold Zminus; rewrite inject_Z_plus; reflexivity).
  unfold TextLine.total_width. ring.
Qed.

End TextLineFacts.

(** ** The packer *)

Section PackerFacts.
Context `{PIL}.
Local Open Scope Q_scope.

Lemma accept_cond_dec boundary font min_spacing line word :
  {accept_cond boundary font min_spacing line word}
  + {~ accept_cond boundary font min_spacing line word}.
Proof.
  unfold accept_cond; cbv zeta.
  match goal with
  | |- {?a < ?b \/ ?c < ?d} + {_} =>
      destruct (Qlt_le_dec a b) as [H1|H1];
      [left; left; exact H1|];
      destruct (Qlt_le_dec c d) as [H2|H2];
      [left; right; exact H2|];
      right; intros [H3|H3];
      [exact (Qlt_not_le _ _ H3 H1)|exact (Qlt_not_le _ _ H3 H2)]
  end.
Qed.

Lemma fill_line_accept boundary font min_spacing line word rest :
  accept_cond boundary font min_spacing line word ->
  fill_line boundary font min_spacing line (word :: rest)
  = fill_line boundary font min_spacing (TextLine.add_word line word) rest.
Proof.
  intros Hc. cbn [fill_line]. cbv zeta.
  match goal with
  | |- (if ?t then _ else _) = _ =>
      replace t with true; [reflexivity|]
  end.
  symmetry. apply orb_true_iff.
  destruct Hc as [Hc|Hc]; [left|right]; apply ltb_spec; exact Hc.
Qed.

Lemma fill_line_reject boundary font min_spacing line word rest :
  ~ accept_cond boundary font min_spacing line word ->
  fill_line boundary font min_spacing line (word :: rest)
  = (Some (TextLine.fit_length line (inject_Z (Boundary.length boundary))),
     word :: rest).
Proof.
  intros Hc. cbn [fill_line]. cbv zeta.
  match goal with
  | |- (if ?t then _ else _) = _ =>
      replace t with false; [reflexivity|]
  end.
  symmetry. apply orb_false_iff. split; apply not_true_is_false;
    intros Ht; apply ltb_spec in Ht; apply Hc; [left|right]; exact Ht.
Qed.

(** The loop of one boundary, with a property [P] of the line that every
    accepted word preserves: the loop takes a prefix [taken] of the
    pending words into the line and finalizes it with [fit_length], or
    appends nothing when the words ran out on an empty line. *)
Lemma fill_line_inv (P : TextLine.t -> Prop) boundary font min_spacing :
  (forall line word,
      P line -> accept_cond boundary font min_spacing line word ->
      P (TextLine.add_word line word)) ->
  forall words line appended remaining,
    P line ->
    fill_line boundary font min_spacing line words = (appended, remaining) ->
    exists line_k taken,
      P line_k
      /\ words = (taken ++ remaining)%list
      /\ TextLine.words line_k = (TextLine.words line ++ taken)%list
      /\ ((appended
           = Some (TextLine.fit_length line_k
                     (inject_Z (Boundary.length boundary)))
           /\ (TextLine.words line_k <> [] \/ remaining <> []))
          \/ (appended = None /\ TextLine.words line_k = []
              /\ remaining = [])).
Proof.
  intros HP. induction words as [|word rest IH];
    intros line appended remaining Hline Hfill.
  - cbn [fill_line] in Hfill. injection Hfill as Happ Hrem.
    subst remaining. exists line, [].
    rewrite !app_nil_r. split; [exact Hline|]. split; [reflexivity|].
    split; [reflexivity|].
    destruct (TextLine.words line) eqn:Ew; subst appended.
    + right. repeat split.
    + left. split; [reflexivity|]. left. discriminate.
  - destruct (accept_cond_dec boundary font min_spacing line word)
      as [Hc|Hc].
    + rewrite fill_line_accept in Hfill by exact Hc.
      destruct (IH _ _ _ (HP _ _ Hline Hc) Hfill)
        as (line_k & taken & Hk & Hrest & Hwords & Hres).
      exists line_k, (word :: taken).
      split; [exact Hk|]. split; [cbn; rewrite Hrest; reflexivity|].
      split; [|exact Hres].
      rewrite Hwords. cbn [TextLine.add_word TextLine.words].
      rewrite <- app_assoc. reflexivity.
    + rewrite fill_line_reject in Hfill by exact Hc.
      inversion Hfill; subst. exists line, [].
      rewrite !app_nil_r. split; [exact Hline|]. split; [reflexivity|].
      split; [reflexivity|]. left. split; [reflexivity|].
      right. discriminate.
Qed.

(** The words of the appended line and the words left over. *)
Lemma fill_line_words boundary font min_spacing words line appended
    remaining :
  fill_line boundary font min_spacing line words = (appended, remaining) ->
  exists taken,
    words = (taken ++ remaining)%list
    /\ match appended with
       | Some l => TextLine.words l = (TextLine.words line ++ taken)%list
       | None => taken = [] /\ remaining = []
       end.
Proof.
  intros Hfill.
  destruct (fill_line_inv (fun _ => True) boundary font min_spacing
              (fun _ _ _ _ => I) words line appended remaining I Hfill)
    as (line_k & taken & _ & Hw & Hk & [[-> _]|(-> & Hnil & Hrem)]).
  - exists taken. split; [exact Hw|].
    rewrite fit_length_words. exact Hk.
  - exists taken. split; [exact Hw|]. split; [|exact Hrem].
    rewrite Hk in Hnil. apply app_eq_nil in Hnil. tauto.
Qed.

Lemma pack_no_words boundaries font min_spacing :
  pack boundaries font min_spacing [] = ([], []).
Proof.
  induction boundaries as [|b bs IH]; [reflexivity|].
  cbn [pack fill_line TextLine.words]. rewrite IH. reflexivity.
Qed.

Lemma pack_conserves boundaries font min_spacing : forall words lines rem,
  pack boundaries font min_spacing words = (lines, rem) ->
  (concat (map TextLine.words lines) ++ rem)%list = words.
Proof.
  induction boundaries as [|b bs IH]; intros words lines rem Hp.
  - cbn in Hp. inversion Hp; subst. reflexivity.
  - cbn [pack] in Hp.
    destruct (fill_line b font min_spacing _ words) as [appended words']
      eqn:Hfill.
    destruct (pack bs font min_spacing words') as [lines' rem'] eqn:Hrest.
    inversion Hp; subst. clear Hp.
    apply IH in Hrest.
    apply fill_line_words in Hfill as (taken & -> & Happ).
    destruct appended as [l|].
    + cbn. rewrite Happ. cbn. rewrite <- app_assoc, Hrest. reflexivity.
    + destruct Happ as [-> _]. exact Hrest.
Qed.

(** Line [i] of the result was filled against boundary [i]. *)
Lemma pack_lookup boundaries font min_spacing :
  forall words lines rem (i : nat) l,
    pack boundaries font min_spacing words = (lines, rem) ->
    lines !! i = Some l ->
    exists boundary words0 rem0,
      boundaries !! i = Some boundary
      /\ fill_line boundary font min_spacing
           (TextLine.mk min_spacing (Boundary.start_point boundary) font [])
           words0
         = (Some l, rem0).
Proof.
  induction boundaries as [|b bs IH]; intros words lines rem i l Hp Hl.
  - cbn in Hp. inversion Hp; subst. discriminate.
  - cbn [pack] in Hp.
    destruct (fill_line b font min_spacing _ words) as [appended words']
      eqn:Hfill.
    destruct (pack bs font min_spacing words') as [lines' rem'] eqn:Hrest.
    inversion Hp; subst. clear Hp.
    destruct appended as [l0|].
    + destruct i as [|i].
      * cbn in Hl. inversion Hl; subst.
        exists b, words, words'. split; [reflexivity|exact Hfill].
      * cbn in Hl. destruct (IH _ _ _ _ _ Hrest Hl) as (b' & w0 & r0 & Hb & Hf).
        exists b', w0, r0. split; [exact Hb|exact Hf].
    + apply fill_line_words in Hfill as (taken & _ & _ & ->).
      rewrite pack_no_words in Hrest. inversion Hrest; subst.
      discriminate.
Qed.

End PackerFacts.

(** ** Claims about the packer *)

Section PackerClaims.
Context `{PIL}.
Local Open Scope Q_scope.

(** The width the packer tests is the width of the line with the word
    appended, in the spec's words, plus one more gap: [total_width] has
    already counted a gap for every word of the line. *)
Lemma new_width_gap_per_word font min_spacing line word :
  TextLine.font line = font ->
  TextLine.word_spacing line = min_spacing ->
  (get_word_width word font + min_spacing) + TextLine.total_width line
  == spec_total_width (TextLine.add_word line word) + min_spacing.
Proof.
  intros Hf Hs. unfold spec_total_width.
  rewrite words_width_add_word.
  unfold TextLine.total_width, TextLine.add_word.
  cbn [TextLine.word_spacing TextLine.words TextLine.font].
  rewrite len_snoc, Hf, Hs.
  replace (Py.len (TextLine.words line) + 1 - 1)%Z
    with (Py.len (TextLine.words line)) by lia.
  ring.
Qed.

(** C10: the packer conserves the word stream: the words of the returned
    lines, concatenated in order, followed by the words left pending, are
    exactly [text.split()]. *)
Theorem packer_conserves_words text boundaries font min_spacing :
  exists remaining,
    pack boundaries font min_spacing (Py.split text)
    = (align_text_to_boundaries text boundaries font min_spacing, remaining)
    /\ (concat (map TextLine.words
                  (align_text_to_boundaries text boundaries font
                     min_spacing))
        ++ remaining)%list
       = Py.split text.
Proof.
  unfold align_text_to_boundaries.
  destruct (pack boundaries font min_spacing (Py.split text))
    as [lines remaining] eqn:Hp.
  exists remaining. split; [reflexivity|].
  cbn [fst]. exact (pack_conserves _ _ _ _ _ _ Hp).
Qed.

(** C7: with a non-negative [min_spacing] and a font whose glyph widths
    are non-negative, every word the packer places in a line is narrower
    than the boundary that line was filled against. *)
Theorem packer_words_fit_boundary text boundaries font min_spacing :
  0 <= min_spacing ->
  (forall w, 0 <= get_word_width w font) ->
  forall (i : nat) line boundary word,
    align_text_to_boundaries text boundaries font min_spacing !! i
    = Some line ->
    boundaries !! i = Some boundary ->
    word ∈ TextLine.words line ->
    get_word_width word font < inject_Z (Boundary.length boundary).
Proof.
  intros Hs Hw i line boundary word Hline Hb Hin.
  unfold align_text_to_boundaries in Hline.
  destruct (pack boundaries font min_spacing (Py.split text))
    as [lines remaining] eqn:Hp.
  cbn [fst] in Hline.
  destruct (pack_lookup _ _ _ _ _ _ _ _ Hp Hline)
    as (b' & words0 & rem0 & Hb' & Hfill).
  rewrite Hb in Hb'. inversion Hb'; subst b'. clear Hb'.
  set (P := fun l : TextLine.t =>
              TextLine.word_spacing l = min_spacing
              /\ TextLine.font l = font
              /\ forall w, w ∈ TextLine.words l ->
                   get_word_width w font
                   < inject_Z (Boundary.length boundary)).
  assert (forall l w, P l -> accept_cond boundary font min_spacing l w ->
                      P (TextLine.add_word l w)) as HP.
  { intros l w (Hsp & Hf & Hall) Hc. split; [exact Hsp|].
    split; [exact Hf|].
    intros w' Hw'. cbn [TextLine.add_word TextLine.words] in Hw'.
    apply elem_of_app in Hw' as [Hw'|Hw']; [apply Hall; exact Hw'|].
    apply list_elem_of_singleton in Hw'. subst w'.
    pose proof (words_width_nonneg l) as HW. rewrite Hf in HW.
    specialize (HW Hw).
    assert (0 <= min_spacing * inject_Z (Py.len (TextLine.words l)))
      as Hgaps.
    { apply Qmult_le_0_compat; [exact Hs|].
      change 0 with (inject_Z 0). rewrite <- Zle_Qle. unfold Py.len. lia. }
    unfold accept_cond, TextLine.total_width in Hc. cbv zeta in Hc.
    rewrite Hsp in Hc. destruct Hc as [Hc|Hc]; lra. }
  assert (P (TextLine.mk min_spacing (Boundary.start_point boundary)
               font [])) as HP0.
  { repeat split. intros w Hw'. cbn in Hw'. inversion Hw'. }
  destruct (fill_line_inv P boundary font min_spacing HP _ _ _ _ HP0 Hfill)
    as (line_k & taken & (_ & _ & Hk) & _ & _ & [[Heq _]|(Heq & _)]);
    [|discriminate].
  inversion Heq; subst line. rewrite fit_length_words in Hin.
  apply Hk. exact Hin.
Qed.

(** What the packer does guarantee of a finalized line of two or more
    words (with [min_spacing > 0] and non-negative glyph widths): the
    word widths plus one solved gap between consecutive words add up to
    the boundary's length, and the solved spacing is not negative. *)
Lemma finalized_line_justified text boundaries font min_spacing :
  0 < min_spacing ->
  (forall w, 0 <= get_word_width w font) ->
  forall (i : nat) line boundary,
    align_text_to_boundaries text boundaries font min_spacing !! i
    = Some line ->
    boundaries !! i = Some boundary ->
    (1 < Py.len (TextLine.words line))%Z ->
    TextLine.words_width line
    + TextLine.word_spacing line
      * inject_Z (Py.len (TextLine.words line) - 1)
    == inject_Z (Boundary.length boundary)
    /\ 0 <= TextLine.word_spacing line.
Proof.
  intros Hs Hw i line boundary Hline Hb Hn.
  unfold align_text_to_boundaries in Hline.
  destruct (pack boundaries font min_spacing (Py.split text))
    as [lines remaining] eqn:Hp.
  cbn [fst] in Hline.
  destruct (pack_lookup _ _ _ _ _ _ _ _ Hp Hline)
    as (b' & words0 & rem0 & Hb' & Hfill).
  rewrite Hb in Hb'. inversion Hb'; subst b'. clear Hb'.
  set (P := fun l : TextLine.t =>
              TextLine.word_spacing l = min_spacing
              /\ TextLine.font l = font
              /\ (TextLine.words l = []
                  \/ TextLine.total_width l
                     < inject_Z (Boundary.length boundary)
                       + min_spacing * (25 # 100))).
  assert (forall l w, P l -> accept_cond boundary font min_spacing l w ->
                      P (TextLine.add_word l w)) as HP.
  { intros l w (Hsp & Hf & Hall) Hc. split; [exact Hsp|].
    split; [exact Hf|]. right.
    rewrite total_width_add_word, Hsp, Hf.
    unfold accept_cond in Hc. cbv zeta in Hc. destruct Hc as [Hc|Hc]; lra. }
  assert (P (TextLine.mk min_spacing (Boundary.start_point boundary)
               font [])) as HP0.
  { repeat split. left. reflexivity. }
  destruct (fill_line_inv P boundary font min_spacing HP _ _ _ _ HP0 Hfill)
    as (line_k & taken & (Hsp & Hf & Hk) & _ & _ & [[Heq _]|(Heq & _)]);
    [|discriminate].
  inversion Heq; subst line. clear Heq.
  rewrite fit_length_words in *. rewrite words_width_fit_length.
  pose proof (fit_length_solves line_k
                (inject_Z (Boundary.length boundary)) Hn) as Hsolve.
  split; [exact Hsolve|].
  destruct Hk as [Hk|Hk]; [rewrite Hk in Hn; unfold Py.len in Hn; cbn [length] in Hn; lia|].
  unfold TextLine.total_width in Hk. rewrite Hsp in Hk.
  pose proof (words_width_nonneg line_k) as HW. rewrite Hf in HW.
  specialize (HW Hw).
  set (sp := TextLine.word_spacing (TextLine.fit_length line_k _)) in *.
  set (N := Py.len (TextLine.words line_k)) in *.
  assert (2 <= inject_Z N) as HN.
  { change 2 with (inject_Z 2). rewrite <- Zle_Qle. lia. }
  assert (inject_Z (N - 1) == inject_Z N - 1) as HN1.
  { unfold Zminus. rewrite inject_Z_plus. reflexivity. }
  rewrite HN1 in Hsolve.
  assert (min_spacing * 2 <= min_spacing * inject_Z N) as Hgaps.
  { apply Qmult_le_l; [exact Hs|exact HN]. }
  destruct (Qlt_le_dec sp 0) as [Hneg|Hpos]; [exfalso|exact Hpos].
  assert (0 <= (- sp) * (inject_Z N - 1)) as Hprod
    by (apply Qmult_le_0_compat; lra).
  lra.
Qed.

(** Hence the [total_width] property of such a line is the boundary's
    length plus one solved gap. *)
Lemma finalized_total_width text boundaries font min_spacing :
  0 < min_spacing ->
  (forall w, 0 <= get_word_width w font) ->
  forall (i : nat) line boundary,
    align_text_to_boundaries text boundaries font min_spacing !! i
    = Some line ->
    boundaries !! i = Some boundary ->
    (1 < Py.len (TextLine.words line))%Z ->
    TextLine.total_width line
    == inject_Z (Boundary.length boundary) + TextLine.word_spacing line.
Proof.
  intros Hs Hw i line boundary Hline Hb Hn.
  destruct (finalized_line_justified text boundaries font min_spacing Hs Hw
              i line boundary Hline Hb Hn) as [Hsolve _].
  rewrite total_width_gap_per_word, Hsolve. reflexivity.
Qed.

End PackerClaims.

Lemma mono_width_nonneg font w :
  (0 <= @get_word_width mono_pil w font)%Q \/ size font < 0.
Proof.
  destruct (Z_lt_le_dec (size font) 0) as [Hneg|Hpos]; [right; exact Hneg|].
  left. unfold get_word_width; cbn [getbbox mono_pil].
  unfold Qminus. rewrite Qplus_0_r.
  change 0%Q with (inject_Z 0). rewrite <- Zle_Qle. nia.
Qed.

Lemma mono10_width_nonneg w : (0 <= @get_word_width mono_pil w mono10)%Q.
Proof. destruct (mono_width_nonneg mono10 w) as [Hok|Hneg]; [exact Hok|]. cbn in Hneg. lia. Qed.

Lemma packer_words_fit_boundary_witness :
  (@get_word_width mono_pil "a" mono10
   < inject_Z (Boundary.length wide_boundary))%Q.
Proof.
  eapply (@packer_words_fit_boundary mono_pil "a b" [wide_boundary] mono10 5
            ltac:(discriminate) mono10_width_nonneg 0%nat).
  - reflexivity.
  - reflexivity.
  - cbn. apply list_elem_of_here.
Defined.

(** C2 at a line of two words of width 10 with spacing 5: the claim gives
    [20 + 5 * (2 - 1) = 25], the property returns 30. *)
Theorem total_width_two_words :
  (@TextLine.total_width mono_pil two_word_line == 30
   /\ @TextLine.words_width mono_pil two_word_line
      + TextLine.word_spacing two_word_line
        * inject_Z (Py.len (TextLine.words two_word_line) - 1) == 25)%Q.
Proof. split; vm_compute; reflexivity. Qed.


(** C1 at the text "a b" packed into a boundary of length 100 with
    [min_spacing = 5]: the line is finalized with both words and a solved
    spacing of 80, and its [total_width] is 180, not 100. *)
Theorem finalized_total_width_overshoots :
  exists line,
    @align_text_to_boundaries mono_pil "a b" [wide_boundary] mono10 5
    = [line]
    /\ TextLine.words line = ["a"%string; "b"%string]
    /\ Boundary.length wide_boundary = 100
    /\ (TextLine.word_spacing line == 80)%Q
    /\ (@TextLine.total_width mono_pil line == 180)%Q
    /\ ~ (Qabs (@TextLine.total_width mono_pil line
                - inject_Z (Boundary.length wide_boundary))
          <= 1 # 1000)%Q.
Proof.
  eexists. split; [reflexivity|].
  split; [reflexivity|]. split; [reflexivity|].
  split; [vm_compute; reflexivity|].
  split; [vm_compute; reflexivity|].
  vm_compute. intros Hle. apply Hle. reflexivity.
Qed.

(** ** The renderer *)

Section RendererFacts.
Context `{PIL}.
Local Open Scope Q_scope.

(** A line of one word [w] is drawn as the three tokens [''], [w], [''];
    the spacing is solved against the line's own [total_width], and [w]
    lands half the line's former spacing right of the start point. *)
Lemma draw_single_word font color line_height line w :
  TextLine.words line = [w] ->
  TextLine.font line = font ->
  exists d0 d1 d2,
    draw_line font color line_height line = [d0; d1; d2]
    /\ TextLine.words (pad_single_word line) = [EmptyString; w; EmptyString]
    /\ text d0 = EmptyString /\ text d1 = w /\ text d2 = EmptyString
    /\ fst (xy d1)
       == inject_Z (fst (TextLine.start_point line))
          + TextLine.word_spacing line / 2.
Proof.
  intros Hw Hf. destruct line as [sp0 st0 f0 ws0]. cbn in Hw, Hf. subst.
  unfold draw_line, pad_single_word.
  cbn [TextLine.words TextLine.set_words nth].
  change (Py.len [w] =? 1)%Z with true. cbv iota.
  unfold TextLine.fit_length. cbn [TextLine.set_words TextLine.words].
  change (1 <? Py.len [EmptyString; w; EmptyString])%Z with true. cbv iota.
  change (Py.len [EmptyString; w; EmptyString] - 1)%Z with 2%Z.
  cbn [TextLine.set_word_spacing TextLine.word_spacing TextLine.words
       TextLine.set_words draw_words].
  do 3 eexists. split; [reflexivity|].
  split; [reflexivity|]. split; [reflexivity|].
  split; [reflexivity|]. split; [reflexivity|].
  cbn [xy fst]. unfold TextLine.total_width, TextLine.words_width.
  cbn [TextLine.words TextLine.font TextLine.word_spacing
       TextLine.start_point TextLine.set_words].
  change (Py.len [w]) with 1%Z.
  unfold Py.sum. cbn [map fold_left].
  change (inject_Z 1) with 1. change (inject_Z 2) with 2. field.
Qed.

End RendererFacts.

(** C4 at the one-word text "hi" packed into the boundary from (10, 50) to
    (110, 50): the renderer draws the three tokens [''], ['hi'], [''], and
    the spacing re-solved against the line's own width puts "hi" at
    [x = 10], the boundary's start, not at the centred [x = 50]. *)
Theorem single_word_drawn_at_start :
  exists line d0 d1 d2,
    @align_text_to_boundaries mono_pil "hi" [offset_boundary] mono10 5
    = [line]
    /\ TextLine.words line = ["hi"%string]
    /\ @draw_text_lines mono_pil [line] mono10 black = [d0; d1; d2]
    /\ text d0 = EmptyString /\ text d1 = "hi"%string /\ text d2 = EmptyString
    /\ (fst (xy d1) == inject_Z (fst (Boundary.start_point offset_boundary)))%Q
    /\ ~ (fst (xy d1)
          == inject_Z (fst (Boundary.start_point offset_boundary))
             + (inject_Z (Boundary.length offset_boundary)
                - @get_word_width mono_pil "hi" mono10) / 2)%Q.
Proof.
  do 4 eexists. split; [reflexivity|]. split; [reflexivity|].
  split; [reflexivity|]. split; [reflexivity|].
  split; [reflexivity|]. split; [reflexivity|].
  split; [vm_compute; reflexivity|].
  vm_compute. discriminate.
Qed.

(** ** The font-size search *)

Section SearchFacts.
Context `{PIL}.
Local Open Scope Q_scope.



Lemma working_image_width fp scaled_width image :
  working_image fp = Some (scaled_width, image) ->
  (2000 <= scaled_width)%Z.
Proof.
  unfold working_image. cbv zeta.
  destruct (Float.truediv _ _); [|discriminate]. cbn [mbind option_bind].
  destruct (Float.of_int _); [|discriminate]. cbn [mbind option_bind].
  destruct (Float.mul _ _); [|discriminate]. cbn [mbind option_bind].
  destruct (image_resize _ _); [|discriminate]. cbn [mbind option_bind].
  intros Heq. inversion Heq; subst. lia.
Qed.

Lemma loop_test_initial scaled_width :
  (2000 <= scaled_width)%Z -> loop_test (initial_state scaled_width) = true.
Proof.
  intros Hw. unfold loop_test, initial_state. cbn [upper lower].
  apply ltb_spec. rewrite Zle_Qle in Hw.
  change (inject_Z 2000) with 2000 in Hw.
  assert (inject_Z scaled_width / 10 == inject_Z scaled_width * (1 # 10))
    as -> by (field; discriminate).
  lra.
Qed.


End SearchFacts.



(** C8, as stated: when the first candidate (the ceiling, 200) leaves a
    boundary without a line, the new window is three times the old one,
    not twice. *)
Lemma ceiling_raise_is_not_doubling :
  exists st',
    @loop_body mono_pil (opaque_image 2000 300) EmptyString "mono.ttf" 0
      (initial_state 2000)
    = Some (Next st')
    /\ (Py.len (lines st') < Py.len (boundaries st'))
    /\ (upper st' - lower st'
        == 3 * (upper (initial_state 2000) - lower (initial_state 2000)))%Q
    /\ ~ (upper st' - lower st'
          == 2 * (upper (initial_state 2000) - lower (initial_state 2000)))%Q.
Proof.
  eexists. split; [vm_compute; reflexivity|].
  split; [reflexivity|]. split; [vm_compute; reflexivity|].
  vm_compute. discriminate.
Qed.

(** C8, amended: when the packer leaves fewer lines than boundaries and
    the candidate size is at (or above) the ceiling, the ceiling is raised
    by twice the window, [upper + (upper - lower) * 2], which triples the
    window, and the next candidate is the new ceiling, not the midpoint;
    when the candidate is below the ceiling it becomes the new lower
    bound and the next candidate is the midpoint. *)
Theorem fewer_lines_than_boundaries `{PIL} image text font_fp total_words st
    ls bs :
  try_spacings image text (load_font font_fp (Py.int (font_size st)))
    (font_size st) total_words
    (map (fun i => (i * font_size st)%Q) spacing_factors)
    (lines st, boundaries st)
  = Some (ls, bs) ->
  Py.len ls < Py.len bs ->
  exists st',
    loop_body image text font_fp total_words st = Some (Next st')
    /\ lines st' = ls /\ boundaries st' = bs
    /\ ((upper st <= font_size st)%Q ->
        lower st' = lower st
        /\ upper st' = (upper st + (upper st - lower st) * 2)%Q
        /\ font_size st' = upper st'
        /\ (upper st' - lower st' == 3 * (upper st - lower st))%Q)
    /\ ((font_size st < upper st)%Q ->
        lower st' = font_size st
        /\ upper st' = upper st
        /\ font_size st' = ((upper st + font_size st) / 2)%Q).
Proof.
  intros Htry Hlt. unfold loop_body. cbv zeta. rewrite Htry.
  cbn [mbind option_bind]. cbv beta iota.
  replace (Py.len ls <? Py.len bs) with true
    by (symmetry; apply Z.ltb_lt; exact Hlt).
  cbv iota. destruct (Py.geb (font_size st) (upper st)) eqn:Hge.
  - apply geb_spec in Hge. eexists. split; [reflexivity|].
    cbn [lines boundaries lower upper font_size].
    split; [reflexivity|]. split; [reflexivity|]. split.
    + intros _. split; [reflexivity|]. split; [reflexivity|].
      split; [reflexivity|]. ring.
    + intros Hlt'. exfalso. exact (Qlt_not_le _ _ Hlt' Hge).
  - eexists. split; [reflexivity|].
    cbn [lines boundaries lower upper font_size].
    split; [reflexivity|]. split; [reflexivity|]. split.
    + intros Hle. apply geb_spec in Hle. congruence.
    + intros _. split; [reflexivity|]. split; reflexivity.
Qed.

Lemma fewer_lines_than_boundaries_witness :
  exists st',
    @loop_body mono_pil (opaque_image 2000 300) EmptyString "mono.ttf" 0
      (initial_state 2000)
    = Some (Next st')
    /\ lines st' = [] /\ boundaries st' = [Boundary.mk (0, 200) (1999, 200)]
    /\ upper st' = (inject_Z 2000 / 10 + (inject_Z 2000 / 10 - 1) * 2)%Q
    /\ font_size st' = upper st'.
Proof.
  destruct (@fewer_lines_than_boundaries mono_pil (opaque_image 2000 300)
              EmptyString "mono.ttf" 0 (initial_state 2000)
              [] [Boundary.mk (0, 200) (1999, 200)])
    as (st' & Hbody & Hls & Hbs & Hceil & _).
  - vm_compute. reflexivity.
  - reflexivity.
  - exists st'. split; [exact Hbody|]. split; [exact Hls|].
    split; [exact Hbs|].
    destruct Hceil as (_ & Hup & Hfs & _); [discriminate|].
    split; [exact Hup|exact Hfs].
Defined.

(** ** The cache is transparent *)

Section CacheFacts.
Context `{PIL}.

Lemma cache_ok_empty : cache_ok ∅.
Proof. intros word font kw v Hv. rewrite lookup_empty in Hv. discriminate. Qed.

Lemma computes_ret {A} (a : A) : computes (Cached.ret a) (Some a).
Proof. intros cache Hok. exists cache. split; [reflexivity|exact Hok]. Qed.

Lemma computes_lift {A} (o : option A) : computes (Cached.lift o) o.
Proof.
  intros cache Hok. destruct o as [a|]; [|reflexivity].
  exists cache. split; [reflexivity|exact Hok].
Qed.

Lemma computes_bind {A B} (m : Cached.M A) (k : A -> Cached.M B) a r :
  computes m (Some a) -> computes (k a) r -> computes (Cached.bind m k) r.
Proof.
  intros Hm Hk cache Hok. unfold Cached.bind.
  destruct (Hm cache Hok) as (cache' & -> & Hok').
  exact (Hk cache' Hok').
Qed.

Lemma computes_bind_opt {A B} (m : Cached.M A) (k : A -> Cached.M B)
    (o : option A) (f : A -> option B) :
  computes m o -> (forall a, computes (k a) (f a)) ->
  computes (Cached.bind m k) (o ≫= f).
Proof.
  intros Hm Hk. destruct o as [a|].
  - exact (computes_bind m k a _ Hm (Hk a)).
  - intros cache Hok. unfold Cached.bind. rewrite (Hm cache Hok).
    reflexivity.
Qed.

Lemma computes_get_word_width by_keyword word font :
  computes (Cached.get_word_width by_keyword word font)
    (Some (get_word_width word font)).
Proof.
  intros cache Hok. unfold Cached.get_word_width.
  destruct (cache !! (word, font, by_keyword)) as [v|] eqn:Hv.
  - exists cache. rewrite (Hok _ _ _ _ Hv). split; [reflexivity|exact Hok].
  - eexists. split; [reflexivity|].
    intros word' font' kw' v' Hv'.
    apply lookup_insert_Some in Hv' as [[Hkey <-]|[_ Hv']].
    + inversion Hkey; subst. reflexivity.
    + exact (Hok _ _ _ _ Hv').
Qed.

Lemma computes_comprehension {A B} (f : A -> Cached.M B) (g : A -> B) xs :
  (forall x, computes (f x) (Some (g x))) ->
  computes (Cached.comprehension f xs) (Some (map g xs)).
Proof.
  intros Hf. induction xs as [|x xs IH]; [apply computes_ret|].
  cbn [Cached.comprehension map].
  eapply computes_bind; [apply Hf|].
  eapply computes_bind; [apply IH|]. apply computes_ret.
Qed.

Lemma computes_words_width line :
  computes (Cached.words_width line) (Some (TextLine.words_width line)).
Proof.
  unfold Cached.words_width.
  eapply computes_bind.
  - apply computes_comprehension with
      (g := fun w => get_word_width w (TextLine.font line)).
    intros w. apply computes_get_word_width.
  - apply computes_ret.
Qed.

Lemma computes_total_width line :
  computes (Cached.total_width line) (Some (TextLine.total_width line)).
Proof.
  unfold Cached.total_width.
  eapply computes_bind; [apply computes_words_width|]. apply computes_ret.
Qed.

Lemma computes_fit_length line length :
  computes (Cached.fit_length line length)
    (Some (TextLine.fit_length line length)).
Proof.
  unfold Cached.fit_length, TextLine.fit_length.
  destruct (1 <? Py.len (TextLine.words line)); [|apply computes_ret].
  eapply computes_bind; [apply computes_words_width|]. apply computes_ret.
Qed.

Lemma computes_fill_line boundary font min_spacing words : forall line,
  computes (Cached.fill_line boundary font min_spacing line words)
    (Some (fill_line boundary font min_spacing line words)).
Proof.
  induction words as [|word rest IH]; intros line.
  - cbn [Cached.fill_line fill_line].
    destruct (TextLine.words line); [apply computes_ret|].
    eapply computes_bind; [apply computes_fit_length|]. apply computes_ret.
  - cbn [Cached.fill_line fill_line]. cbv zeta.
    eapply computes_bind; [apply computes_get_word_width|].
    eapply computes_bind; [apply computes_total_width|].
    cbv beta. destruct (_ || _)%bool; [apply IH|].
    eapply computes_bind; [apply computes_fit_length|]. apply computes_ret.
Qed.

Lemma computes_pack boundaries font min_spacing : forall words,
  computes (Cached.pack boundaries font min_spacing words)
    (Some (pack boundaries font min_spacing words)).
Proof.
  induction boundaries as [|b bs IH]; intros words; [apply computes_ret|].
  cbn [Cached.pack pack]. cbv zeta.
  eapply computes_bind; [apply computes_fill_line|].
  destruct (fill_line b font min_spacing _ words) as [appended words'].
  eapply computes_bind; [apply IH|].
  destruct (pack bs font min_spacing words') as [lines remaining].
  apply computes_ret.
Qed.

Lemma computes_align text boundaries font min_spacing :
  computes (Cached.align_text_to_boundaries text boundaries font min_spacing)
    (Some (align_text_to_boundaries text boundaries font min_spacing)).
Proof.
  unfold Cached.align_text_to_boundaries, align_text_to_boundaries.
  eapply computes_bind; [apply computes_pack|].
  destruct (pack boundaries font min_spacing (Py.split text)).
  apply computes_ret.
Qed.

Lemma computes_draw_words font color word_spacing words : forall point,
  computes (Cached.draw_words font color word_spacing point words)
    (Some (draw_words font color word_spacing point words)).
Proof.
  induction words as [|word rest IH]; intros point; [apply computes_ret|].
  cbn [Cached.draw_words draw_words].
  eapply computes_bind; [apply computes_get_word_width|].
  eapply computes_bind; [apply IH|]. apply computes_ret.
Qed.

Lemma computes_pad_single_word line :
  computes (Cached.pad_single_word line) (Some (pad_single_word line)).
Proof.
  unfold Cached.pad_single_word, pad_single_word.
  destruct (Py.len (TextLine.words line) =? 1); [|apply computes_ret].
  eapply computes_bind; [apply computes_total_width|].
  apply computes_fit_length.
Qed.

Lemma computes_draw_line font color line_height line :
  computes (Cached.draw_line font color line_height line)
    (Some (draw_line font color line_height line)).
Proof.
  unfold Cached.draw_line, draw_line. cbv zeta.
  eapply computes_bind; [apply computes_pad_single_word|].
  apply computes_draw_words.
Qed.

Lemma computes_draw_text_lines lines font color :
  computes (Cached.draw_text_lines lines font color)
    (Some (draw_text_lines lines font color)).
Proof.
  unfold Cached.draw_text_lines, draw_text_lines.
  destruct (getbbox font "A") as [[[x0 y0] x1] y1]. cbv zeta.
  eapply computes_bind.
  - apply computes_comprehension with
      (g := draw_line font color (y0 - y1)%Q).
    intros line. apply computes_draw_line.
  - rewrite flat_map_concat_map. apply computes_ret.
Qed.

Lemma computes_try_spacings image text font font_size total_words spacings :
  forall last,
    computes (Cached.try_spacings image text font font_size total_words
                spacings last)
      (try_spacings image text font font_size total_words spacings last).
Proof.
  induction spacings as [|sp rest IH]; intros last; [apply computes_ret|].
  cbn [Cached.try_spacings try_spacings].
  apply computes_bind_opt; [apply computes_lift|].
  intros bs. eapply computes_bind; [apply computes_align|].
  cbv zeta. destruct (_ && _)%bool; [apply computes_ret|apply IH].
Qed.

Lemma computes_loop_body image text font_fp total_words st :
  computes (Cached.loop_body image text font_fp total_words st)
    (loop_body image text font_fp total_words st).
Proof.
  unfold Cached.loop_body, loop_body. cbv zeta.
  apply computes_bind_opt; [apply computes_try_spacings|].
  intros [ls bs].
  destruct (Py.len ls <? Py.len bs).
  - destruct (Py.geb (font_size st) (upper st)); apply computes_ret.
  - destruct (placed_words ls <? total_words); apply computes_ret.
Qed.

Lemma computes_search fuel image text font_fp total_words : forall st,
  computes (Cached.search fuel image text font_fp total_words st)
    (search fuel image text font_fp total_words st).
Proof.
  induction fuel as [|fuel IH]; intros st.
  - cbn [Cached.search search].
    destruct (loop_test st); [apply computes_lift|apply computes_ret].
  - cbn [Cached.search search].
    destruct (loop_test st); [|apply computes_ret].
    apply computes_bind_opt; [apply computes_loop_body|].
    intros [st'|st']; [apply computes_ret|apply IH].
Qed.

Lemma computes_fit_text_search fuel fp text font_fp :
  computes (Cached.fit_text_search fuel fp text font_fp)
    (fit_text_search fuel fp text font_fp).
Proof.
  unfold Cached.fit_text_search, fit_text_search.
  apply computes_bind_opt; [apply computes_lift|].
  intros [scaled_width image]. cbv zeta.
  apply computes_bind_opt; [apply computes_search|].
  intros st. apply computes_ret.
Qed.

(** The decorated [fit_text_to_image] returns what the cache-free model
    returns, and leaves the cache empty. *)
Lemma fit_text_to_image_cached fuel fp text font_fp color cache :
  cache_ok cache ->
  Cached.fit_text_to_image fuel fp text font_fp color cache
  = match fit_text_to_image fuel fp text font_fp color with
    | Some canvas => Some (canvas, ∅)
    | None => None
    end.
Proof.
  intros Hok. unfold Cached.fit_text_to_image, fit_text_to_image.
  unfold Cached.bind at 1.
  pose proof (computes_fit_text_search fuel fp text font_fp cache Hok) as Hs.
  destruct (fit_text_search fuel fp text font_fp) as [[image st]|].
  - destruct Hs as (cache1 & -> & Hok1). cbn [mbind option_bind].
    unfold Cached.bind at 1, Cached.lift.
    destruct (font st) as [font|]; [|reflexivity].
    cbn [mbind option_bind]. unfold Cached.bind at 1.
    destruct (computes_draw_text_lines (lines st) font color cache1 Hok1)
      as (cache2 & -> & _).
    reflexivity.
  - rewrite Hs. reflexivity.
Qed.

End CacheFacts.

(** C9: running [fit_text_to_image] twice on the same inputs gives the same
    result both times.  The first run, from any cache whose entries were
    stored by [get_word_width], ends with the cache cleared; the second
    run, started from the cache the first one left, draws the same canvas,
    and its search ends with the same layout (lines, boundaries, font and
    bounds). *)
Theorem fit_text_twice_same_layout `{PIL} fuel fp text font_fp color cache
    canvas cache' :
  cache_ok cache ->
  Cached.fit_text_to_image fuel fp text font_fp color cache
  = Some (canvas, cache') ->
  cache' = ∅
  /\ Cached.fit_text_to_image fuel fp text font_fp color cache'
     = Some (canvas, ∅)
  /\ (forall layout cache1,
        Cached.fit_text_search fuel fp text font_fp cache
        = Some (layout, cache1) ->
        exists cache2,
          Cached.fit_text_search fuel fp text font_fp cache'
          = Some (layout, cache2)).
Proof.
  intros Hok Hrun. rewrite (fit_text_to_image_cached _ _ _ _ _ _ Hok) in Hrun.
  destruct (fit_text_to_image fuel fp text font_fp color) as [c|] eqn:Hpure;
    [|discriminate].
  inversion Hrun; subst. clear Hrun.
  split; [reflexivity|]. split.
  - rewrite (fit_text_to_image_cached _ _ _ _ _ _ cache_ok_empty), Hpure.
    reflexivity.
  - intros layout cache1 Hsearch.
    pose proof (computes_fit_text_search fuel fp text font_fp cache Hok) as H1.
    pose proof (computes_fit_text_search fuel fp text font_fp ∅
                  cache_ok_empty) as H2.
    destruct (fit_text_search fuel fp text font_fp) as [r|].
    + destruct H1 as (c1 & Hr1 & _). destruct H2 as (c2 & Hr2 & _).
      rewrite Hr1 in Hsearch. inversion Hsearch; subst.
      exists c2. exact Hr2.
    + rewrite H1 in Hsearch. discriminate.
Qed.

Lemma fit_text_twice_same_layout_witness :
  exists canvas,
    @Cached.fit_text_to_image mono_pil 30 (opaque_image 2000 300) "hi"
      "mono.ttf" black ∅
    = Some (canvas, ∅)
    /\ drawn canvas <> [].
Proof.
  eexists. split.
  - eapply (@fit_text_twice_same_layout mono_pil 30 (opaque_image 2000 300)
              "hi" "mono.ttf" black ∅).
    + exact (@cache_ok_empty mono_pil).
    + vm_compute. reflexivity.
  - discriminate.
Defined.

(* ===================================================================== *)
(** * Part III: further properties                                        *)
(* ===================================================================== *)

(** ** More on the scanner *)

Lemma chain_weaken image y lo lo' bs :
  lo' <= lo -> chain image y lo bs -> chain image y lo' bs.
Proof.
  intros Hle. destruct bs as [|b rest]; [trivial|].
  cbn [chain]. unfold span_at. intros [Hb Hrest]. split; [|exact Hrest].
  intuition lia.
Qed.

Lemma scan_row_chain image y step :
  0 < step ->
  forall fuel x,
    0 <= x ->
    (x = 0 \/ width image <= x
     \/ is_target_pixel false (getpixel image (x, y)) = false) ->
    (Z.to_nat (width image - x) < fuel)%nat ->
    exists bs, scan_row fuel image y step x = Some bs
      /\ chain image y x bs
      /\ (is_target_pixel false (getpixel image (x, y)) = false ->
          chain image y (x + 1) bs)
      /\ (width image <= x -> bs = []).
Proof.
  intros Hstep. induction fuel as [|fuel IH]; intros x Hx Hinv Hf; [lia|].
  cbn [scan_row].
  destruct (find_pixel_spec image y false step Hstep x Hx)
    as (x1 & -> & Hle1 & Hge1 & Hlt1).
  unfold is_target in Hlt1.
  cbn [mbind option_bind].
  destruct (x1 =? width image) eqn:E1.
  { exists []. cbn [chain]. repeat split. }
  apply Z.eqb_neq in E1.
  destruct Hlt1 as (H0 & Hop & Hyes & Hno); [lia|].
  assert (x <= x1) as Hxx1.
  { destruct (is_target_pixel false (getpixel image (x, y))) eqn:Ex.
    - destruct Hinv as [->|[Hw|Hc]]; [lia| |congruence].
      specialize (Hge1 Hw). lia.
    - assert (x < x1); [|lia]. apply Hno. congruence. }
  destruct (find_pixel_spec image y true step Hstep (x1 + 1))
    as (e & -> & Hle2 & Hge2 & Hlt2); [lia|].
  unfold is_target in Hlt2.
  cbn [mbind option_bind].
  assert (x1 + 1 <= e) as He.
  { destruct (Z_lt_le_dec e (width image)) as [Hew|Hew]; [|lia].
    destruct (Hlt2 Hew) as (_ & _ & Hyes2 & Hno2).
    destruct (is_target_pixel true (getpixel image (x1 + 1, y))) eqn:Et.
    - destruct (Hyes2 eq_refl) as [_ Hall].
      destruct (Z_lt_le_dec x1 e) as [|Hex]; [lia|].
      assert (is_target_pixel true (getpixel image (x1, y)) = true) as Htr
        by (apply Hall; lia).
      apply target_exclusive in Htr. congruence.
    - assert (x1 + 1 < e); [|lia]. apply Hno2. congruence. }
  destruct (IH e) as (rest & -> & Hch & Hch1 & Hnil); [lia| |lia|].
  { destruct (Z_lt_le_dec e (width image)) as [Hew|Hew]; [|right; left; lia].
    right; right. destruct (Hlt2 Hew) as (_ & Htr & _).
    apply target_exclusive. exact Htr. }
  assert (chain image y (e - 1 + 2) rest) as Hrest.
  { replace (e - 1 + 2) with (e + 1) by lia.
    destruct (Z_lt_le_dec e (width image)) as [Hew|Hew].
    - apply Hch1. destruct (Hlt2 Hew) as (_ & Htr & _).
      apply target_exclusive. exact Htr.
    - rewrite (Hnil Hew). exact I. }
  assert (e - 1 + 1 = width image
          \/ is_target image y true (e - 1 + 1)) as Hend.
  { replace (e - 1 + 1) with e by lia.
    destruct (Z_lt_le_dec e (width image)) as [Hew|Hew]; [right|left; lia].
    destruct (Hlt2 Hew) as (_ & Htr & _). exact Htr. }
  eexists; split; [reflexivity|].
  split; [|split].
  - cbn [chain]. split; [|exact Hrest].
    unfold span_at; cbn [Boundary.start_point Boundary.end_point fst snd].
    unfold is_target. intuition lia.
  - intros Hx0. cbn [chain]. split; [|exact Hrest].
    unfold span_at; cbn [Boundary.start_point Boundary.end_point fst snd].
    assert (x < x1) by (apply Hno; congruence).
    unfold is_target. intuition lia.
  - intros Hw. specialize (Hge1 Hw). lia.
Qed.

Lemma chain_Forall image y lo bs :
  chain image y lo bs -> Forall (span_at image y lo) bs.
Proof.
  revert lo. induction bs as [|b rest IH]; intros lo Hch; [constructor|].
  cbn [chain] in Hch. destruct Hch as [Hb Hrest]. constructor; [exact Hb|].
  apply IH. apply chain_weaken with (lo := fst (Boundary.end_point b) + 2);
    [|exact Hrest].
  unfold span_at in Hb. intuition lia.
Qed.

Lemma chain_sorted image y lo bs :
  chain image y lo bs -> StronglySorted scan_before bs.
Proof.
  revert lo. induction bs as [|b rest IH]; intros lo Hch; [constructor|].
  cbn [chain] in Hch. destruct Hch as [Hb Hrest].
  constructor; [exact (IH _ Hrest)|].
  apply chain_Forall in Hrest.
  eapply Forall_impl; [exact Hrest|].
  intros b' Hb'. right. unfold span_at in Hb, Hb'. intuition lia.
Qed.

Lemma range_up start stop step ys :
  0 < step -> Py.range start stop step = Some ys ->
  Forall (fun y => exists k, 0 <= k /\ y = start + k * step /\ y < stop) ys
  /\ StronglySorted Z.lt ys.
Proof.
  intros Hstep. unfold Py.range.
  replace (step =? 0) with false by (symmetry; apply Z.eqb_neq; lia).
  replace (0 <? step) with true by (symmetry; apply Z.ltb_lt; lia).
  intros Heq. inversion Heq; subst ys. clear Heq.
  set (n := Z.to_nat ((stop - start + step - 1) / step)).
  split.
  - apply Forall_forall. intros y Hy.
    apply list_elem_of_In, in_map_iff in Hy as (i & <- & Hi).
    apply in_seq in Hi. exists (Z.of_nat i).
    split; [lia|]. split; [reflexivity|].
    pose proof (Z.mul_div_le (stop - start + step - 1) step Hstep) as Hdiv.
    assert (Z.of_nat i + 1 <= (stop - start + step - 1) / step) by lia.
    nia.
  - generalize 0%nat as a. induction n as [|n IH]; intros a; [constructor|].
    cbn [seq map]. constructor; [apply IH|].
    apply Forall_forall. intros y Hy.
    apply list_elem_of_In, in_map_iff in Hy as (i & <- & Hi).
    apply in_seq in Hi. nia.
Qed.

(** The scanner's result, row by row. *)
Lemma get_text_boundaries_rows image boundaries_spacing :
  0 < boundaries_spacing ->
  exists ys rows,
    Py.range boundaries_spacing (height image) boundaries_spacing = Some ys
    /\ Forall2 (fun y row => chain image y 0 row) ys rows
    /\ get_text_boundaries image boundaries_spacing = Some (concat rows).
Proof.
  intros Hs. unfold get_text_boundaries.
  destruct (range_pos boundaries_spacing (height image) boundaries_spacing Hs)
    as (ys & Hys).
  rewrite Hys. cbn [mbind option_bind].
  destruct (mapM_Forall
              (fun y => scan_row (S (Z.to_nat (width image))) image y
                          boundaries_spacing 0)
              (fun _ => True) ys) as (rows & Hrows & _).
  { intros y.
    destruct (scan_row_chain image y boundaries_spacing Hs
                (S (Z.to_nat (width image))) 0) as (bs & Hbs & _);
      [lia|left; reflexivity|lia|].
    exists bs. split; [exact Hbs|exact I]. }
  rewrite Hrows. cbn [mbind option_bind].
  exists ys, rows. split; [reflexivity|]. split; [|reflexivity].
  apply mapM_Some_1 in Hrows.
  eapply Forall2_impl; [exact Hrows|].
  intros y row Hrow. cbv beta in Hrow.
  destruct (scan_row_chain image y boundaries_spacing Hs
              (S (Z.to_nat (width image))) 0) as (bs & Hbs & Hch & _);
    [lia|left; reflexivity|lia|].
  rewrite Hbs in Hrow. inversion Hrow; subst. exact Hch.
Qed.

(** X1: for a positive row spacing the scanner returns, and every boundary
    lies on a scanned row [y = k * spacing] with [k >= 1] and [y] below the
    image height, starts on an opaque pixel inside the image, and ends just
    before a transparent pixel or at the right edge. *)
Theorem scanner_spans_on_rows image boundaries_spacing :
  0 < boundaries_spacing ->
  exists bs,
    get_text_boundaries image boundaries_spacing = Some bs
    /\ Forall (fun b =>
         exists k, 1 <= k
           /\ snd (Boundary.start_point b) = k * boundaries_spacing
           /\ snd (Boundary.start_point b) < height image
           /\ span_at image (snd (Boundary.start_point b)) 0 b) bs.
Proof.
  intros Hs.
  destruct (get_text_boundaries_rows image boundaries_spacing Hs)
    as (ys & rows & Hys & Hrows & ->).
  eexists; split; [reflexivity|].
  destruct (range_up _ _ _ _ Hs Hys) as [Hin _].
  clear Hys. induction Hrows as [|y row ys rows Hrow _ IH];
    [constructor|].
  inversion Hin as [|? ? (k & Hk & Hy & Hlt) Hin']; subst.
  cbn [concat]. apply Forall_app. split; [|exact (IH Hin')].
  apply chain_Forall in Hrow.
  eapply Forall_impl; [exact Hrow|].
  intros b Hb. pose proof Hb as (Hy & _).
  exists (k + 1). rewrite Hy. split; [lia|]. split; [lia|].
  split; [exact Hlt|exact Hb].
Qed.

Lemma scanner_spans_on_rows_witness :
  exists bs,
    get_text_boundaries striped_image 2 = Some bs
    /\ Forall (fun b =>
         exists k, 1 <= k
           /\ snd (Boundary.start_point b) = k * 2
           /\ snd (Boundary.start_point b) < height striped_image
           /\ span_at striped_image (snd (Boundary.start_point b)) 0 b) bs.
Proof. apply (scanner_spans_on_rows striped_image 2). lia. Defined.

Lemma StronglySorted_app {A} (R : A -> A -> Prop) l1 l2 :
  StronglySorted R l1 -> StronglySorted R l2 ->
  (forall a b, In a l1 -> In b l2 -> R a b) ->
  StronglySorted R (l1 ++ l2).
Proof.
  intros H1 H2 H12. induction H1 as [|a l1 Hl1 IH Ha]; [exact H2|].
  cbn. constructor.
  - apply IH. intros x b Hx Hb. apply H12; [right; exact Hx|exact Hb].
  - apply Forall_app. split; [exact Ha|].
    apply Forall_forall. intros b Hb. apply list_elem_of_In in Hb.
    apply H12; [left; reflexivity|exact Hb].
Qed.

(** X2: the boundaries come out in scan order, top to bottom and left to
    right, and two boundaries of one row never touch: the later one starts
    at least two columns after the earlier one ends. *)
Theorem scanner_order image boundaries_spacing :
  0 < boundaries_spacing ->
  exists bs,
    get_text_boundaries image boundaries_spacing = Some bs
    /\ StronglySorted scan_before bs.
Proof.
  intros Hs.
  destruct (get_text_boundaries_rows image boundaries_spacing Hs)
    as (ys & rows & Hys & Hrows & ->).
  eexists; split; [reflexivity|].
  destruct (range_up _ _ _ _ Hs Hys) as [_ Hsorted].
  clear Hys.
  assert (StronglySorted scan_before (concat rows)
          /\ forall b, In b (concat rows) ->
               exists y, In y ys /\ snd (Boundary.start_point b) = y)
    as [Hgoal _]; [|exact Hgoal].
  induction Hrows as [|y row ys rows Hrow _ IH].
  - split; [constructor|]. intros b [].
  - inversion Hsorted as [|? ? Hs' Hlt]; subst.
    destruct (IH Hs') as [Hrest Hys]. cbn [concat]. split.
    + apply StronglySorted_app;
        [exact (chain_sorted _ _ _ _ Hrow)|exact Hrest|].
      intros a b Ha Hb. left.
      destruct (Hys b Hb) as (y' & Hy' & ->).
      apply chain_Forall in Hrow.
      rewrite Forall_forall in Hrow.
      apply list_elem_of_In in Ha. destruct (Hrow a Ha) as (-> & _).
      rewrite Forall_forall in Hlt. apply Hlt.
      apply list_elem_of_In. exact Hy'.
    + intros b Hb. apply in_app_or in Hb as [Hb|Hb].
      * exists y. split; [left; reflexivity|].
        apply chain_Forall in Hrow. rewrite Forall_forall in Hrow.
        apply list_elem_of_In in Hb. destruct (Hrow b Hb) as (Hy & _).
        exact Hy.
      * destruct (Hys b Hb) as (y' & Hy' & Heq).
        exists y'. split; [right; exact Hy'|exact Heq].
Qed.

Lemma scanner_order_witness :
  exists bs,
    get_text_boundaries striped_image 2 = Some bs
    /\ StronglySorted scan_before bs.
Proof. apply (scanner_order striped_image 2). lia. Defined.

(** X3: a zero row spacing makes the scanner raise ([range] rejects a zero
    step), and a negative one yields no boundary at all. *)
Theorem scanner_nonpositive_spacing image boundaries_spacing :
  0 <= height image ->
  (boundaries_spacing = 0 ->
   get_text_boundaries image boundaries_spacing = None)
  /\ (boundaries_spacing < 0 ->
      get_text_boundaries image boundaries_spacing = Some []).
Proof.
  intros Hh. unfold get_text_boundaries, Py.range. split.
  - intros ->. reflexivity.
  - intros Hneg.
    replace (boundaries_spacing =? 0) with false
      by (symmetry; apply Z.eqb_neq; lia).
    replace (0 <? boundaries_spacing) with false
      by (symmetry; apply Z.ltb_ge; lia).
    assert ((boundaries_spacing - height image - boundaries_spacing - 1)
            / - boundaries_spacing < 0) as Hdiv
      by (apply Z.div_lt_upper_bound; lia).
    rewrite (Z2Nat.nonpos
               ((boundaries_spacing - height image - boundaries_spacing - 1)
                / - boundaries_spacing))
      by (apply Z.lt_le_incl; exact Hdiv).
    reflexivity.
Qed.

Lemma scanner_nonpositive_spacing_witness :
  get_text_boundaries dot_image 0 = None
  /\ get_text_boundaries dot_image (-2) = Some [].
Proof.
  destruct (scanner_nonpositive_spacing dot_image 0) as [H0 _];
    [cbn; lia|].
  destruct (scanner_nonpositive_spacing dot_image (-2)) as [_ Hneg];
    [cbn; lia|].
  split; [apply H0; reflexivity|apply Hneg; lia].
Defined.

(** X4: on an image without opaque pixels the scanner finds no boundary,
    whatever the positive row spacing. *)
Theorem scanner_blank_image image boundaries_spacing :
  0 < boundaries_spacing ->
  (forall p, px3 (getpixel image p) <= 0) ->
  get_text_boundaries image boundaries_spacing = Some [].
Proof.
  intros Hs Hb. unfold get_text_boundaries.
  destruct (range_pos boundaries_spacing (height image) boundaries_spacing Hs)
    as (ys & ->).
  cbn [mbind option_bind].
  destruct (mapM_Forall
              (fun y => scan_row (S (Z.to_nat (width image))) image y
                          boundaries_spacing 0)
              (fun row => row = []) ys) as (rows & -> & Hrows).
  { intros y. exists []. split; [|reflexivity].
    cbn [scan_row]. rewrite find_pixel_none; [| exact Hs | lia |].
    - cbn [mbind option_bind]. rewrite Z.eqb_refl. reflexivity.
    - intros i Hi. unfold is_target, is_target_pixel in Hi.
      cbn [andb negb orb] in Hi.
      apply Z.ltb_lt in Hi. specialize (Hb (i, y)). lia. }
  cbn [mbind option_bind]. f_equal.
  induction Hrows as [|row rows -> _ IH]; [reflexivity|exact IH].
Qed.

Lemma scanner_blank_image_witness :
  get_text_boundaries (transparent_image 2000 3) 1 = Some [].
Proof.
  apply scanner_blank_image; [lia|]. intros p. cbn. lia.
Defined.

(** X5: on a row of the image, with a positive step and a start column
    [>= 0], [find_pixel] returns without tripping its [assert]; the column
    it returns is at most the image width, is the width when the start is
    already past the edge, and when it is inside the image it holds a
    target pixel: right of the start if the start pixel is not a target,
    and otherwise at or left of the start with only target pixels in
    between. *)
Theorem find_pixel_result image start_x start_y step find_transparent :
  0 < step -> 0 <= start_x -> 0 <= start_y < height image ->
  exists x,
    find_pixel image start_x start_y step find_transparent
    = Some (x, start_y)
    /\ x <= width image
    /\ (width image <= start_x -> x = width image)
    /\ (x < width image ->
        0 <= x
        /\ is_target image start_y find_transparent x
        /\ (is_target image start_y find_transparent start_x ->
            x <= start_x
            /\ forall i, x <= i <= start_x ->
                 is_target image start_y find_transparent i)
        /\ (~ is_target image start_y find_transparent start_x ->
            start_x < x)).
Proof.
  intros Hstep Hx Hrow. unfold find_pixel.
  destruct (find_pixel_loop_spec image start_y find_transparent step Hstep
              (S (Z.to_nat (width image - start_x))) start_x)
    as (r & -> & Hr); [lia|lia|].
  cbn [mbind option_bind].
  destruct Hr as [[Hw Hsame]|(Hb & Htr & Hxw & Hyes & Hno)].
  - replace (r <? width image) with false by (symmetry; apply Z.ltb_ge; lia).
    cbn [andb]. exists (Z.min r (width image)). split; [reflexivity|].
    split; [lia|]. split; [lia|]. lia.
  - unfold is_target in Htr. rewrite Htr, andb_false_r.
    exists (Z.min r (width image)). split; [reflexivity|].
    rewrite Z.min_l by lia.
    split; [lia|]. split; [lia|]. intros _.
    split; [lia|]. split; [exact Htr|]. split; [exact Hyes|exact Hno].
Qed.

Lemma find_pixel_result_witness :
  exists x,
    find_pixel dot_image 0 1 2 false = Some (x, 1)
    /\ x <= width dot_image
    /\ (x < width dot_image -> is_target dot_image 1 false x).
Proof.
  destruct (find_pixel_result dot_image 0 1 2 false)
    as (x & Hx & Hle & _ & Hin); [lia|lia|cbn; lia|].
  exists x. split; [exact Hx|]. split; [exact Hle|].
  intros Hlt. destruct (Hin Hlt) as (_ & Ht & _). exact Ht.
Defined.

(** X6: on a row of the image none of whose pixels is a target,
    [find_pixel] reports the image width, the value the scanner reads as
    "nothing more on this row". *)
Theorem find_pixel_not_found image start_x start_y step find_transparent :
  0 < step -> 0 <= start_x -> 0 <= start_y < height image ->
  (forall i, 0 <= i < width image ->
             ~ is_target image start_y find_transparent i) ->
  find_pixel image start_x start_y step find_transparent
  = Some (width image, start_y).
Proof.
  intros Hstep Hx Hrow Hnone.
  destruct (find_pixel_spec image start_y find_transparent step Hstep
              start_x Hx) as (r & -> & Hle & _ & Hlt).
  destruct (Z_lt_le_dec r (width image)) as [Hr|Hr].
  - destruct (Hlt Hr) as (H0 & Htr & _).
    destruct (Hnone r (conj H0 Hr) Htr).
  - do 2 f_equal. lia.
Qed.

Lemma find_pixel_not_found_witness :
  find_pixel (transparent_image 7 3) 0 1 2 false = Some (7, 1).
Proof.
  apply (find_pixel_not_found (transparent_image 7 3) 0 1 2 false);
    [lia|lia|cbn; lia|].
  intros i _ Hi. unfold is_target in Hi. cbn in Hi. discriminate.
Defined.

(** ** More on the packer *)

Lemma sumZ_acc (xs : list Z) (a : Z) :
  fold_left Z.add xs a = a + Py.sumZ xs.
Proof.
  unfold Py.sumZ. revert a. induction xs as [|x xs IH]; intros a; cbn.
  - lia.
  - rewrite IH, (IH (0 + x)). lia.
Qed.

Lemma placed_words_concat (ls : list TextLine.t) :
  placed_words ls = Py.len (concat (map TextLine.words ls)).
Proof.
  unfold placed_words. induction ls as [|l ls IH]; [reflexivity|].
  cbn [map concat]. unfold Py.sumZ. cbn [fold_left].
  rewrite sumZ_acc, IH. unfold Py.len. rewrite length_app. lia.
Qed.

Section MorePacker.
Context `{PIL}.
Local Open Scope Q_scope.

(** A boundary with a pending word always gets a line. *)
Lemma fill_line_pending boundary font min_spacing line word rest appended
    remaining :
  fill_line boundary font min_spacing line (word :: rest)
  = (appended, remaining) ->
  appended <> None.
Proof.
  intros Hfill.
  destruct (fill_line_inv (fun _ => True) boundary font min_spacing
              (fun _ _ _ _ => I) _ _ _ _ I Hfill)
    as (line_k & taken & _ & Hw & Hk & [[-> _]|(_ & Hnil & ->)]);
    [discriminate|].
  rewrite app_nil_r in Hw. subst taken. rewrite Hk in Hnil.
  apply app_eq_nil in Hnil as [_ Hnil]. discriminate.
Qed.

Lemma pack_leftover boundaries font min_spacing : forall words lines rem,
  pack boundaries font min_spacing words = (lines, rem) ->
  rem <> [] -> length lines = length boundaries.
Proof.
  induction boundaries as [|b bs IH]; intros words lines rem Hp Hrem.
  - cbn in Hp. inversion Hp; subst. reflexivity.
  - cbn [pack] in Hp.
    destruct (fill_line b font min_spacing _ words) as [appended words']
      eqn:Hfill.
    destruct (pack bs font min_spacing words') as [lines' rem'] eqn:Hrest.
    inversion Hp; subst. clear Hp.
    destruct words' as [|w ws'].
    { rewrite pack_no_words in Hrest. inversion Hrest; subst.
      destruct Hrem. reflexivity. }
    pose proof (IH _ _ _ Hrest Hrem) as Hlen.
    destruct appended as [l|].
    + cbn [length]. rewrite Hlen. reflexivity.
    + apply fill_line_words in Hfill as (taken & _ & _ & Hnil).
      discriminate.
Qed.

Lemma pack_length boundaries font min_spacing : forall words lines rem,
  pack boundaries font min_spacing words = (lines, rem) ->
  (length lines <= length boundaries)%nat.
Proof.
  induction boundaries as [|b bs IH]; intros words lines rem Hp.
  - cbn in Hp. inversion Hp; subst. reflexivity.
  - cbn [pack] in Hp.
    destruct (fill_line b font min_spacing _ words) as [appended words'].
    destruct (pack bs font min_spacing words') as [lines' rem'] eqn:Hrest.
    inversion Hp; subst. clear Hp.
    pose proof (IH _ _ _ Hrest) as Hlen.
    destruct appended; cbn [length]; lia.
Qed.

(** X7: the packer returns no line exactly when there is no boundary or no
    word: with a boundary and a word, the first boundary always gets a
    line. *)
Theorem align_empty_iff text boundaries font min_spacing :
  align_text_to_boundaries text boundaries font min_spacing = []
  <-> boundaries = [] \/ Py.split text = [].
Proof.
  unfold align_text_to_boundaries. split.
  - intros Hnil. destruct boundaries as [|b bs]; [left; reflexivity|].
    right. destruct (Py.split text) as [|w ws]; [reflexivity|exfalso].
    cbn [pack] in Hnil.
    destruct (fill_line b font min_spacing _ (w :: ws))
      as [appended words'] eqn:Hfill.
    destruct (pack bs font min_spacing words') as [lines' rem'].
    apply fill_line_pending in Hfill.
    destruct appended; [discriminate|congruence].
  - intros [->| ->]; [reflexivity|].
    rewrite pack_no_words. reflexivity.
Qed.

Lemma align_counts text boundaries font min_spacing :
  let lines := align_text_to_boundaries text boundaries font min_spacing in
  (Py.len lines <= Py.len boundaries)%Z
  /\ (placed_words lines <= Py.len (Py.split text))%Z.
Proof.
  cbv zeta. unfold align_text_to_boundaries.
  destruct (pack boundaries font min_spacing (Py.split text))
    as [lines rem] eqn:Hp.
  cbn [fst].
  pose proof (pack_length _ _ _ _ _ _ Hp) as Hlen.
  pose proof (pack_conserves _ _ _ _ _ _ Hp) as Hcons.
  rewrite placed_words_concat. unfold Py.len.
  rewrite <- Hcons, length_app. lia.
Qed.

(** X8: the packer never returns more lines than boundaries nor places
    more words than the text has, and it leaves a boundary without a line
    only after the words have run out: fewer lines than boundaries means
    every word of the text is placed. *)
Theorem fewer_lines_means_all_placed text boundaries font min_spacing :
  let lines := align_text_to_boundaries text boundaries font min_spacing in
  (Py.len lines <= Py.len boundaries)%Z
  /\ (placed_words lines <= Py.len (Py.split text))%Z
  /\ ((Py.len lines < Py.len boundaries)%Z ->
      placed_words lines = Py.len (Py.split text)).
Proof.
  cbv zeta. unfold align_text_to_boundaries.
  destruct (pack boundaries font min_spacing (Py.split text))
    as [lines rem] eqn:Hp.
  cbn [fst].
  pose proof (pack_length _ _ _ _ _ _ Hp) as Hlen.
  pose proof (pack_conserves _ _ _ _ _ _ Hp) as Hcons.
  rewrite placed_words_concat. unfold Py.len.
  rewrite <- Hcons, length_app.
  split; [lia|]. split; [lia|].
  intros Hlt. destruct rem as [|w rem]; [cbn [length]; lia|].
  assert (length lines = length boundaries) as Heq
    by (apply (pack_leftover _ _ _ _ _ _ Hp); discriminate).
  lia.
Qed.

(** The line filled for a boundary keeps the boundary's start point and
    the packer's font. *)
Lemma fill_line_anchor boundary font min_spacing words line remaining :
  fill_line boundary font min_spacing
    (TextLine.mk min_spacing (Boundary.start_point boundary) font []) words
  = (Some line, remaining) ->
  TextLine.start_point line = Boundary.start_point boundary
  /\ TextLine.font line = font.
Proof.
  intros Hfill.
  set (P := fun l : TextLine.t =>
              TextLine.start_point l = Boundary.start_point boundary
              /\ TextLine.font l = font).
  assert (forall l w, P l -> accept_cond boundary font min_spacing l w ->
                      P (TextLine.add_word l w)) as HP
    by (intros l w Hl _; exact Hl).
  assert (P (TextLine.mk min_spacing (Boundary.start_point boundary) font []))
    as HP0 by (split; reflexivity).
  destruct (fill_line_inv P boundary font min_spacing HP _ _ _ _ HP0 Hfill)
    as (line_k & taken & (Hsp & Hf) & _ & _ & [[Heq _]|(Heq & _)]);
    [|discriminate].
  inversion Heq; subst line.
  rewrite fit_length_start_point, fit_length_font.
  split; [exact Hsp|exact Hf].
Qed.

(** X9: line [i] of the result belongs to boundary [i]: it is anchored at
    that boundary's start point and carries the font given to the
    packer. *)
Theorem packed_line_anchor text boundaries font min_spacing (i : nat) line :
  align_text_to_boundaries text boundaries font min_spacing !! i = Some line ->
  exists boundary,
    boundaries !! i = Some boundary
    /\ TextLine.start_point line = Boundary.start_point boundary
    /\ TextLine.font line = font.
Proof.
  intros Hline. unfold align_text_to_boundaries in Hline.
  destruct (pack boundaries font min_spacing (Py.split text))
    as [lines remaining] eqn:Hp.
  cbn [fst] in Hline.
  destruct (pack_lookup _ _ _ _ _ _ _ _ Hp Hline)
    as (b & words0 & rem0 & Hb & Hfill).
  exists b. split; [exact Hb|].
  exact (fill_line_anchor _ _ _ _ _ _ Hfill).
Qed.

(** X10: with a non-negative [min_spacing], a finalized line of two or
    more words is justified -- its word widths plus one solved gap between
    consecutive words add up to the boundary's length -- and the solved
    spacing is greater than [min_spacing]; a finalized line of at most one
    word has spacing 0. *)
Theorem finalized_line_spacing text boundaries font min_spacing :
  0 <= min_spacing ->
  forall (i : nat) line boundary,
    align_text_to_boundaries text boundaries font min_spacing !! i
    = Some line ->
    boundaries !! i = Some boundary ->
    ((1 < Py.len (TextLine.words line))%Z ->
     TextLine.words_width line
     + TextLine.word_spacing line
       * inject_Z (Py.len (TextLine.words line) - 1)
     == inject_Z (Boundary.length boundary)
     /\ min_spacing < TextLine.word_spacing line)
    /\ ((Py.len (TextLine.words line) <= 1)%Z ->
        TextLine.word_spacing line = 0).
Proof.
  intros Hs i line boundary Hline Hb.
  unfold align_text_to_boundaries in Hline.
  destruct (pack boundaries font min_spacing (Py.split text))
    as [lines remaining] eqn:Hp.
  cbn [fst] in Hline.
  destruct (pack_lookup _ _ _ _ _ _ _ _ Hp Hline)
    as (b' & words0 & rem0 & Hb' & Hfill).
  rewrite Hb in Hb'. inversion Hb'; subst b'. clear Hb'.
  set (P := fun l : TextLine.t =>
              TextLine.word_spacing l = min_spacing
              /\ TextLine.font l = font
              /\ (TextLine.words l = []
                  \/ TextLine.total_width l
                     < inject_Z (Boundary.length boundary)
                       + min_spacing * (25 # 100))).
  assert (forall l w, P l -> accept_cond boundary font min_spacing l w ->
                      P (TextLine.add_word l w)) as HP.
  { intros l w (Hsp & Hf & Hall) Hc. split; [exact Hsp|].
    split; [exact Hf|]. right.
    rewrite total_width_add_word, Hsp, Hf.
    unfold accept_cond in Hc. cbv zeta in Hc. destruct Hc as [Hc|Hc]; lra. }
  assert (P (TextLine.mk min_spacing (Boundary.start_point boundary)
               font [])) as HP0.
  { repeat split. left. reflexivity. }
  destruct (fill_line_inv P boundary font min_spacing HP _ _ _ _ HP0 Hfill)
    as (line_k & taken & (Hsp & Hf & Hk) & _ & _ & [[Heq _]|(Heq & _)]);
    [|discriminate].
  inversion Heq; subst line. clear Heq.
  rewrite fit_length_words, words_width_fit_length. split.
  - intros Hn.
    pose proof (fit_length_solves line_k
                  (inject_Z (Boundary.length boundary)) Hn) as Hsolve.
    split; [exact Hsolve|].
    destruct Hk as [Hk|Hk];
      [rewrite Hk in Hn; unfold Py.len in Hn; cbn [length] in Hn; lia|].
    unfold TextLine.total_width in Hk. rewrite Hsp in Hk.
    set (sp := TextLine.word_spacing (TextLine.fit_length line_k _)) in *.
    set (N := Py.len (TextLine.words line_k)) in *.
    assert (2 <= inject_Z N) as HN.
    { change 2 with (inject_Z 2). rewrite <- Zle_Qle. lia. }
    assert (inject_Z (N - 1) == inject_Z N - 1) as HN1.
    { unfold Zminus. rewrite inject_Z_plus. reflexivity. }
    rewrite HN1 in Hsolve.
    destruct (Qlt_le_dec min_spacing sp) as [Hgt|Hle]; [exact Hgt|exfalso].
    assert (0 <= (min_spacing - sp) * (inject_Z N - 1)) as Hprod
      by (apply Qmult_le_0_compat; lra).
    lra.
  - intros Hn. unfold TextLine.fit_length.
    replace (1 <? Py.len (TextLine.words line_k))%Z with false
      by (symmetry; apply Z.ltb_ge; exact Hn).
    reflexivity.
Qed.

End MorePacker.

Lemma fewer_lines_means_all_placed_witness :
  placed_words
    (@align_text_to_boundaries mono_pil "a b"
       [wide_boundary; wide_boundary] mono10 5)
  = Py.len (Py.split "a b").
Proof.
  apply (@fewer_lines_means_all_placed mono_pil "a b"
           [wide_boundary; wide_boundary] mono10 5).
  reflexivity.
Defined.

Lemma packed_line_anchor_witness :
  exists boundary,
    [wide_boundary] !! 0%nat = Some boundary
    /\ (0%Z, 50%Z) = Boundary.start_point boundary
    /\ mono10 = mono10.
Proof.
  apply (@packed_line_anchor mono_pil "a b" [wide_boundary] mono10 5 0%nat
           (TextLine.mk ((inject_Z 100 - (0 + (inject_Z 10 - 0)
                                            + (inject_Z 10 - 0)))
                         / inject_Z 1)
              (0%Z, 50%Z) mono10 ["a"%string; "b"%string])).
  reflexivity.
Defined.

Lemma finalized_line_spacing_witness :
  exists line,
    @align_text_to_boundaries mono_pil "a b" [wide_boundary] mono10 5
    !! 0%nat = Some line
    /\ (5 < TextLine.word_spacing line)%Q.
Proof.
  eexists. split; [reflexivity|].
  destruct (@finalized_line_spacing mono_pil "a b" [wide_boundary] mono10 5
              ltac:(discriminate) 0%nat _ wide_boundary eq_refl eq_refl)
    as [Hmulti _].
  destruct Hmulti as [_ Hgt]; [reflexivity|exact Hgt].
Defined.

(** ** More on the renderer *)

Lemma sum_acc (xs : list Q) (a : Q) :
  (fold_left Qplus xs a == a + Py.sum xs)%Q.
Proof.
  induction xs as [|x xs IH] using rev_ind.
  - unfold Py.sum; cbn. ring.
  - rewrite sum_snoc, fold_left_app. cbn [fold_left]. rewrite IH. ring.
Qed.

Lemma sum_cons (x : Q) (xs : list Q) :
  (Py.sum (x :: xs) == x + Py.sum xs)%Q.
Proof. unfold Py.sum at 1. cbn [fold_left]. rewrite sum_acc. ring. Qed.

Section MoreRenderer.
Context `{PIL}.
Local Open Scope Q_scope.

Lemma draw_words_texts font color word_spacing words : forall point,
  map text (draw_words font color word_spacing point words) = words
  /\ Forall (fun d => fill d = color /\ text_font d = font)
       (draw_words font color word_spacing point words).
Proof.
  induction words as [|w ws IH]; intros point; [split; [reflexivity|constructor]|].
  cbn [draw_words map]. destruct (IH (fst point + (get_word_width w font
                                                    + word_spacing),
                                      snd point)) as [Ht Hf].
  rewrite Ht. split; [reflexivity|].
  constructor; [split; reflexivity|exact Hf].
Qed.

(** Where the [k]-th word of the loop is drawn. *)
Lemma draw_words_lookup font color word_spacing words :
  forall point (k : nat) d,
    draw_words font color word_spacing point words !! k = Some d ->
    exists w,
      words !! k = Some w /\ text d = w
      /\ snd (xy d) = snd point
      /\ fst (xy d)
         == fst point
            + Py.sum (map (fun w => get_word_width w font) (take k words))
            + word_spacing * inject_Z (Z.of_nat k).
Proof.
  induction words as [|w ws IH]; intros point k d Hd; [discriminate|].
  cbn [draw_words] in Hd. destruct k as [|k].
  - cbn in Hd. inversion Hd; subst d. exists w.
    split; [reflexivity|]. split; [reflexivity|]. split; [reflexivity|].
    cbn [xy fst take map]. unfold Py.sum. cbn [fold_left].
    change (inject_Z (Z.of_nat 0)) with 0. ring.
  - cbn [lookup list_lookup] in Hd.
    destruct (IH _ _ _ Hd) as (w' & Hw' & Ht & Hy & Hx).
    exists w'. split; [exact Hw'|]. split; [exact Ht|].
    split; [exact Hy|].
    rewrite Hx. cbn [fst take map]. rewrite sum_cons.
    rewrite Nat2Z.inj_succ. unfold Z.succ. rewrite inject_Z_plus.
    change (inject_Z 1) with 1. ring.
Qed.

Lemma pad_single_word_words line :
  TextLine.words (pad_single_word line) = shown_words (TextLine.words line).
Proof.
  unfold pad_single_word.
  destruct (TextLine.words line) as [|w [|w' ws]] eqn:Hw.
  - change (Py.len (@nil string) =? 1)%Z with false. cbv iota. exact Hw.
  - change (Py.len [w] =? 1)%Z with true. cbv iota.
    rewrite fit_length_words. reflexivity.
  - replace (Py.len (w :: w' :: ws) =? 1)%Z with false; [exact Hw|].
    symmetry. apply Z.eqb_neq. unfold Py.len. cbn [length]. lia.
Qed.

Lemma pad_single_word_other line :
  Py.len (TextLine.words line) <> 1%Z -> pad_single_word line = line.
Proof.
  intros Hn. unfold pad_single_word.
  replace (Py.len (TextLine.words line) =? 1)%Z with false; [reflexivity|].
  symmetry. apply Z.eqb_neq. exact Hn.
Qed.

(** X11: the renderer draws the words of the lines in order, a line of
    exactly one word [w] as the three tokens [''], [w], [''], and every
    call uses the colour and the font it was given. *)
Theorem draw_text_lines_texts lines font color :
  map text (draw_text_lines lines font color)
  = concat (map (fun line => shown_words (TextLine.words line)) lines)
  /\ Forall (fun d => fill d = color /\ text_font d = font)
       (draw_text_lines lines font color).
Proof.
  unfold draw_text_lines. destruct (getbbox font "A") as [[[x0 y0] x1] y1].
  cbv zeta. induction lines as [|line lines [IHt IHf]];
    [split; [reflexivity|constructor]|].
  cbn [flat_map map concat]. rewrite map_app, IHt.
  unfold draw_line at 1 3. cbv zeta.
  match goal with
  | |- context [draw_words ?f ?c ?s ?p ?w] =>
      destruct (draw_words_texts f c s w p) as [Ht Hf]
  end.
  rewrite Ht, pad_single_word_words. split; [reflexivity|].
  apply Forall_app. split; [exact Hf|exact IHf].
Qed.

(** X12: a line that does not hold exactly one word is drawn from its
    start point, lowered by 0.8 of the line height; word [k] is drawn at
    the start's x plus the widths of the words before it plus [k] times
    the line's word spacing. *)
Theorem draw_line_positions font color line_height line (k : nat) d :
  Py.len (TextLine.words line) <> 1%Z ->
  draw_line font color line_height line !! k = Some d ->
  exists w,
    TextLine.words line !! k = Some w /\ text d = w
    /\ snd (xy d)
       = inject_Z (snd (TextLine.start_point line)) + line_height * (8 # 10)
    /\ fst (xy d)
       == inject_Z (fst (TextLine.start_point line))
          + Py.sum (map (fun w => get_word_width w font)
                      (take k (TextLine.words line)))
          + TextLine.word_spacing line * inject_Z (Z.of_nat k).
Proof.
  intros Hn Hd. unfold draw_line in Hd. cbv zeta in Hd.
  rewrite (pad_single_word_other _ Hn) in Hd.
  exact (draw_words_lookup _ _ _ _ _ _ _ Hd).
Qed.

(** X13: packer and renderer together justify a line: the last word of a
    finalized line of two or more words is drawn so that its right edge
    is at the boundary's start x plus the boundary's length. *)
Theorem justified_line_reaches_end content boundaries font min_spacing color
    line_height (i : nat) line boundary :
  align_text_to_boundaries content boundaries font min_spacing !! i
  = Some line ->
  boundaries !! i = Some boundary ->
  (1 < Py.len (TextLine.words line))%Z ->
  exists d,
    last (draw_line font color line_height line) = Some d
    /\ last (TextLine.words line) = Some (text d)
    /\ fst (xy d) + get_word_width (text d) font
       == inject_Z (fst (Boundary.start_point boundary))
          + inject_Z (Boundary.length boundary).
Proof.
  intros Hline Hb Hn.
  assert (TextLine.start_point line = Boundary.start_point boundary
          /\ TextLine.font line = font) as [Hstart Hfont].
  { unfold align_text_to_boundaries in Hline.
    destruct (pack boundaries font min_spacing (Py.split content))
      as [lines remaining] eqn:Hp.
    cbn [fst] in Hline.
    destruct (pack_lookup _ _ _ _ _ _ _ _ Hp Hline)
      as (b' & words0 & rem0 & Hb' & Hfill).
    rewrite Hb in Hb'. inversion Hb'; subst b'.
    exact (fill_line_anchor _ _ _ _ _ _ Hfill). }
  assert (TextLine.words_width line
          + TextLine.word_spacing line
            * inject_Z (Py.len (TextLine.words line) - 1)
          == inject_Z (Boundary.length boundary)) as Hsolve.
  { unfold align_text_to_boundaries in Hline.
    destruct (pack boundaries font min_spacing (Py.split content))
      as [lines remaining] eqn:Hp.
    cbn [fst] in Hline.
    destruct (pack_lookup _ _ _ _ _ _ _ _ Hp Hline)
      as (b' & words0 & rem0 & Hb' & Hfill).
    rewrite Hb in Hb'. inversion Hb'; subst b'. clear Hb'.
    destruct (fill_line_inv (fun _ => True) boundary font min_spacing
                (fun _ _ _ _ => I) _ _ _ _ I Hfill)
      as (line_k & taken & _ & _ & _ & [[Heq _]|(Heq & _)]); [|discriminate].
    inversion Heq; subst line. rewrite fit_length_words in *.
    rewrite words_width_fit_length. apply fit_length_solves. exact Hn. }
  assert (Py.len (TextLine.words line) <> 1%Z) as Hn1 by lia.
  set (draws := draw_line font color line_height line).
  assert (length draws = length (TextLine.words line)) as Hlen.
  { unfold draws, draw_line. cbv zeta.
    rewrite (pad_single_word_other _ Hn1).
    match goal with
    | |- context [draw_words ?f ?c ?s ?p ?w] =>
        destruct (draw_words_texts f c s w p) as [Ht _]
    end.
    rewrite <- Ht at 2. rewrite length_map. reflexivity. }
  unfold Py.len in Hn.
  destruct (lookup_lt_is_Some_2 draws (pred (length draws))) as [d Hd];
    [lia|].
  exists d. split; [rewrite last_lookup; exact Hd|].
  pose proof Hd as Hd'. rewrite Hlen in Hd'.
  unfold draws, draw_line in Hd'. cbv zeta in Hd'.
  rewrite (pad_single_word_other _ Hn1) in Hd'.
  destruct (draw_words_lookup _ _ _ _ _ _ _ Hd')
    as (w & Hw & Ht & _ & Hx).
  cbn [fst] in Hx. subst w.
  split; [rewrite last_lookup; exact Hw|].
  rewrite Hx, Hstart, <- Hsolve.
  unfold TextLine.words_width. rewrite Hfont.
  set (ws := TextLine.words line) in *.
  assert (ws = take (pred (length ws)) ws ++ [text d]) as Hsplit.
  { rewrite <- (take_S_r _ _ _ Hw).
    replace (S (pred (length ws))) with (length ws) by lia.
    symmetry. apply take_ge. lia. }
  pose proof (f_equal (fun l => Py.sum (map (fun w => get_word_width w font)
                                         l)) Hsplit) as Hsum.
  cbv beta in Hsum. rewrite map_app in Hsum. cbn [map] in Hsum.
  rewrite sum_snoc in Hsum.
  rewrite Hsum.
  replace (Py.len ws - 1)%Z with (Z.of_nat (pred (length ws)))
    by (unfold Py.len; lia).
  ring.
Qed.

(** X14: a line of exactly one word [w], drawn with its own font, gives
    the tokens [''], [w], [''], and [w] lands half the line's word
    spacing right of the start point: at the start point itself for a
    finalized line, whose spacing is 0. *)
Theorem single_word_position font color line_height line w :
  TextLine.words line = [w] ->
  TextLine.font line = font ->
  exists d0 d1 d2,
    draw_line font color line_height line = [d0; d1; d2]
    /\ text d0 = EmptyString /\ text d1 = w /\ text d2 = EmptyString
    /\ fst (xy d1)
       == inject_Z (fst (TextLine.start_point line))
          + TextLine.word_spacing line / 2.
Proof.
  intros Hw Hf. destruct line as [sp0 st0 f0 ws0]. cbn in Hw, Hf. subst.
  unfold draw_line, pad_single_word.
  cbn [TextLine.words TextLine.set_words nth].
  change (Py.len [w] =? 1)%Z with true. cbv iota.
  unfold TextLine.fit_length. cbn [TextLine.set_words TextLine.words].
  change (1 <? Py.len [EmptyString; w; EmptyString])%Z with true. cbv iota.
  change (Py.len [EmptyString; w; EmptyString] - 1)%Z with 2%Z.
  cbn [TextLine.set_word_spacing TextLine.word_spacing TextLine.words
       TextLine.set_words draw_words].
  do 3 eexists. split; [reflexivity|].
  split; [reflexivity|]. split; [reflexivity|]. split; [reflexivity|].
  cbn [xy fst]. unfold TextLine.total_width, TextLine.words_width.
  cbn [TextLine.words TextLine.font TextLine.word_spacing
       TextLine.start_point TextLine.set_words].
  change (Py.len [w]) with 1%Z.
  unfold Py.sum. cbn [map fold_left].
  change (inject_Z 1) with 1. change (inject_Z 2) with 2. field.
Qed.

End MoreRenderer.

Lemma draw_line_positions_witness :
  exists w,
    TextLine.words two_word_line !! 1%nat = Some w
    /\ (fst (xy {| xy := (15%Q, 42%Q); text := "b"; fill := black;
                   text_font := mono10 |})
        == inject_Z (fst (TextLine.start_point two_word_line))
           + Py.sum (map (fun w => @get_word_width mono_pil w mono10)
                       (take 1 (TextLine.words two_word_line)))
           + TextLine.word_spacing two_word_line * inject_Z (Z.of_nat 1))%Q.
Proof.
  destruct (@draw_line_positions mono_pil mono10 black (-10)%Q two_word_line
              1%nat
              {| xy := ((inject_Z 0 + ((inject_Z (1 * 10) - 0) + 5))%Q,
                        (inject_Z 50 + -10 * (8 # 10))%Q);
                 text := "b"; fill := black; text_font := mono10 |})
    as (w & Hw & _ & _ & Hx).
  - discriminate.
  - reflexivity.
  - exists w. split; [exact Hw|]. rewrite <- Hx. vm_compute. reflexivity.
Defined.

Lemma justified_line_reaches_end_witness :
  exists d,
    last (@draw_line mono_pil mono10 black (-10)%Q
            (TextLine.mk ((inject_Z 100 - (0 + (inject_Z 10 - 0)
                                             + (inject_Z 10 - 0)))
                          / inject_Z 1)
               (0%Z, 50%Z) mono10 ["a"%string; "b"%string]))
    = Some d
    /\ (fst (xy d) + @get_word_width mono_pil (text d) mono10
        == inject_Z 0 + inject_Z 100)%Q.
Proof.
  destruct (@justified_line_reaches_end mono_pil "a b" [wide_boundary]
              mono10 5 black (-10)%Q 0%nat _ wide_boundary eq_refl eq_refl)
    as (d & Hd & _ & Hx); [reflexivity|].
  exists d. split; [exact Hd|exact Hx].
Defined.

Lemma single_word_position_witness :
  exists d0 d1 d2,
    @draw_line mono_pil mono10 black (-10)%Q
      (TextLine.mk 0 (10%Z, 50%Z) mono10 ["hi"%string])
    = [d0; d1; d2]
    /\ text d1 = "hi"%string.
Proof.
  destruct (@single_word_position mono_pil mono10 black (-10)%Q
              (TextLine.mk 0 (10%Z, 50%Z) mono10 ["hi"%string]) "hi"
              eq_refl eq_refl)
    as (d0 & d1 & d2 & Hd & _ & H1 & _).
  exists d0, d1, d2. split; [exact Hd|exact H1].
Defined.

(** ** More on the font-size search *)

Lemma int_floor (q : Q) : (0 <= q)%Q -> Py.int q = Qfloor q.
Proof.
  intros Hq. unfold Py.int, Qfloor. destruct q as [n d]. cbn [Qnum Qden].
  apply Z.quot_div_nonneg; [|lia].
  unfold Qle in Hq. cbn in Hq. lia.
Qed.

Lemma int_ge_1 (q : Q) : (1 <= q)%Q -> 1 <= Py.int q.
Proof.
  intros Hq. rewrite int_floor by lra.
  change 1 with (Qfloor (inject_Z 1)) at 1.
  apply Qfloor_resp_le. exact Hq.
Qed.

Lemma int_step (a b : Q) :
  (0 <= a)%Q -> (a + 1 <= b)%Q -> Py.int a + 1 <= Py.int b.
Proof.
  intros Ha Hab. rewrite !int_floor by lra.
  rewrite <- (Qfloor_Z (Qfloor a + 1)). apply Qfloor_resp_le.
  rewrite inject_Z_plus. pose proof (Qfloor_le a) as Hf.
  change (inject_Z 1) with 1%Q. lra.
Qed.

Lemma boundaries_need_rows image boundaries_spacing bs :
  0 < boundaries_spacing ->
  get_text_boundaries image boundaries_spacing = Some bs ->
  bs <> [] -> boundaries_spacing < height image.
Proof.
  intros Hs Hbs Hne.
  destruct (Z_lt_le_dec boundaries_spacing (height image)) as [Hlt|Hge];
    [exact Hlt|exfalso].
  unfold get_text_boundaries, Py.range in Hbs.
  replace (boundaries_spacing =? 0) with false in Hbs
    by (symmetry; apply Z.eqb_neq; lia).
  replace (0 <? boundaries_spacing) with true in Hbs
    by (symmetry; apply Z.ltb_lt; lia).
  assert ((height image - boundaries_spacing + boundaries_spacing - 1)
          / boundaries_spacing <= 0) as Hdiv.
  { assert ((height image - boundaries_spacing + boundaries_spacing - 1)
            / boundaries_spacing < 1); [|lia].
    apply Z.div_lt_upper_bound; lia. }
  rewrite (Z2Nat.nonpos _ Hdiv) in Hbs. cbn in Hbs.
  inversion Hbs; subst. apply Hne. reflexivity.
Qed.

Section MoreSearch.
Context `{PIL}.
Local Open Scope Q_scope.

Lemma try_spacings_returns image text font font_size total_words :
  (0 < Py.int font_size)%Z ->
  forall spacings last,
    exists r,
      try_spacings image text font font_size total_words spacings last
      = Some r.
Proof.
  intros Hsize. induction spacings as [|sp rest IH]; intros last.
  - exists last. reflexivity.
  - cbn [try_spacings].
    destruct (get_text_boundaries_spec image _ Hsize) as (bs & -> & _).
    cbn [mbind option_bind].
    destruct (_ && _)%bool; [eexists; reflexivity|apply IH].
Qed.

(** What the loop over the spacing candidates leaves in [lines] and
    [boundaries]. *)
Lemma try_spacings_result image text font font_size total_words :
  forall spacings last ls bs,
    spacings <> [] ->
    try_spacings image text font font_size total_words spacings last
    = Some (ls, bs) ->
    get_text_boundaries image (Py.int font_size) = Some bs
    /\ exists min_spacing,
         ls = align_text_to_boundaries text bs font min_spacing.
Proof.
  induction spacings as [|sp rest IH]; intros last ls bs Hne Htry;
    [congruence|].
  cbn [try_spacings] in Htry.
  destruct (get_text_boundaries image (Py.int font_size)) as [bs0|] eqn:Hbs;
    [|discriminate].
  cbn [mbind option_bind] in Htry.
  destruct (_ && _)%bool.
  - inversion Htry; subst. split; [reflexivity|]. exists sp. reflexivity.
  - destruct rest as [|sp' rest'].
    + cbn in Htry. inversion Htry; subst.
      split; [reflexivity|]. exists sp. reflexivity.
    + apply (IH _ _ _ ltac:(discriminate) Htry).
Qed.

(** One pass through the loop body, from bounds in order: it does not
    raise, it leaves the bounds in order and a layout that is a packing of
    the text, it breaks only on a fitting layout, and otherwise it either
    raises the ceiling (from a candidate at the ceiling), or halves the
    window around a candidate strictly inside it, or lowers the ceiling
    to the candidate. *)
Lemma loop_body_spec image text font_fp st :
  bounds_ok st ->
  exists flow,
    loop_body image text font_fp (Py.len (Py.split text)) st = Some flow
    /\ bounds_ok (flow_state flow)
    /\ layout_ok image text font_fp (flow_state flow)
    /\ match flow with
       | Break st' => fits text st'
       | Next st' =>
           (upper st <= font_size st
            /\ boundaries st' <> []
            /\ (Py.int (font_size st) < height image)%Z
            /\ lower st' = lower st
            /\ upper st' = upper st + (upper st - lower st) * 2
            /\ font_size st' = upper st')
           \/ (font_size st < upper st
               /\ lower st' = font_size st /\ upper st' = upper st
               /\ font_size st' = (upper st' + lower st') / 2)
           \/ (lower st' = lower st /\ upper st' = font_size st
               /\ font_size st' = (upper st' + lower st') / 2)
       end.
Proof.
  intros (Hl & Hlf & Hfu).
  assert (1 <= Py.int (font_size st))%Z as Hsize by (apply int_ge_1; lra).
  unfold loop_body. cbv zeta.
  destruct (try_spacings_returns image text
              (load_font font_fp (Py.int (font_size st))) (font_size st)
              (Py.len (Py.split text)) ltac:(lia)
              (map (fun i => i * font_size st) spacing_factors)
              (lines st, boundaries st)) as ([ls bs] & Htry).
  rewrite Htry. cbn [mbind option_bind]. cbv beta iota.
  assert (map (fun i => i * font_size st) spacing_factors <> []) as Hne
    by (unfold spacing_factors; cbn [map]; discriminate).
  destruct (try_spacings_result _ _ _ _ _ _ _ _ _ Hne Htry)
    as (Hbs & sp & Hls).
  assert (forall lo up fs,
            layout_ok image text font_fp
              {| lower := lo; upper := up; font_size := fs; lines := ls;
                 boundaries := bs;
                 font := Some (load_font font_fp (Py.int (font_size st))) |})
    as Hlayout.
  { intros lo up fs. exists (load_font font_fp (Py.int (font_size st))), sp.
    cbn [font lines boundaries load_font font_file size].
    repeat split; [exact Hsize|exact Hbs|exact Hls]. }
  pose proof (align_counts text bs
                (load_font font_fp (Py.int (font_size st))) sp) as Hpack.
  cbv zeta in Hpack. rewrite <- Hls in Hpack.
  destruct Hpack as (Hlen & Hplaced).
  destruct (Py.len ls <? Py.len bs)%Z eqn:Hlt.
  - apply Z.ltb_lt in Hlt.
    destruct (Py.geb (font_size st) (upper st)) eqn:Hge.
    + apply geb_spec in Hge. eexists. split; [reflexivity|].
      cbn [flow_state]. split; [|split; [apply Hlayout|]].
      * unfold bounds_ok; cbn [lower upper font_size]. lra.
      * left. cbn [lower upper font_size boundaries].
        split; [exact Hge|]. split.
        { intros ->. unfold Py.len in Hlt. cbn [length] in Hlt. lia. }
        split.
        { apply (boundaries_need_rows image _ bs); [lia|exact Hbs|].
          intros ->. unfold Py.len in Hlt. cbn [length] in Hlt. lia. }
        repeat split.
    + assert (font_size st < upper st) as Hfs.
      { destruct (Qlt_le_dec (font_size st) (upper st)) as [Hx|Hx];
          [exact Hx|]. apply geb_spec in Hx. congruence. }
      eexists. split; [reflexivity|].
      cbn [flow_state]. split; [|split; [apply Hlayout|]].
      * unfold bounds_ok; cbn [lower upper font_size].
        assert ((upper st + font_size st) / 2
                == (upper st + font_size st) * (1 # 2)) as ->
          by (field; discriminate).
        lra.
      * right; left. cbn [lower upper font_size]. repeat split. exact Hfs.
  - apply Z.ltb_ge in Hlt.
    destruct (placed_words ls <? Py.len (Py.split text))%Z eqn:Hpl.
    + eexists. split; [reflexivity|].
      cbn [flow_state]. split; [|split; [apply Hlayout|]].
      * unfold bounds_ok; cbn [lower upper font_size].
        assert ((font_size st + lower st) / 2
                == (font_size st + lower st) * (1 # 2)) as ->
          by (field; discriminate).
        lra.
      * right; right. cbn [lower upper font_size]. repeat split.
    + apply Z.ltb_ge in Hpl. eexists. split; [reflexivity|].
      cbn [flow_state]. split; [|split; [apply Hlayout|]].
      * unfold bounds_ok; cbn [lower upper font_size]. lra.
      * unfold fits; cbn [lines boundaries]. lia.
Qed.

End MoreSearch.

Lemma half_mult (q : Q) : (q / 2 == q * (1 # 2))%Q.
Proof. field. Qed.

Lemma pow2_covers (w : Q) :
  exists n : nat, (w <= inject_Z (2 ^ Z.of_nat n) / 2)%Q.
Proof.
  set (c := Qceiling (2 * w)).
  exists (Z.to_nat c). rewrite half_mult.
  pose proof (Qle_ceiling (2 * w)) as Hc. fold c in Hc.
  assert (c <= 2 ^ Z.of_nat (Z.to_nat c)) as Hpow.
  { destruct (Z_lt_le_dec c 0) as [Hneg|Hpos].
    - pose proof (Z.pow_nonneg 2 (Z.of_nat (Z.to_nat c))). lia.
    - rewrite Z2Nat.id by exact Hpos.
      apply Z.lt_le_incl. apply Z.pow_gt_lin_r; lia. }
  rewrite Zle_Qle in Hpow. lra.
Qed.

Section SearchRuns.
Context `{PIL}.
Local Open Scope Q_scope.

Variable image : Image.
Variables text font_fp : string.

Local Abbreviation run fuel st :=
  (search fuel image text font_fp (Py.len (Py.split text)) st).

Lemma search_stops_on_small_window fuel st :
  loop_test st = false -> run fuel st = Some st.
Proof. intros Ht. destruct fuel; cbn [search]; rewrite Ht; reflexivity. Qed.

Lemma search_fuel_mono fuel : forall st st' (k : nat),
  run fuel st = Some st' -> run (fuel + k) st = Some st'.
Proof.
  induction fuel as [|fuel IH]; intros st st' k Hrun.
  - cbn [search] in Hrun. destruct (loop_test st) eqn:Ht; [discriminate|].
    inversion Hrun; subst. apply search_stops_on_small_window. exact Ht.
  - cbn [search Nat.add] in *. destruct (loop_test st); [|exact Hrun].
    destruct (loop_body image text font_fp _ st) as [[st1|st1]|];
      cbn [mbind option_bind] in *; [exact Hrun|apply IH; exact Hrun|
                                     discriminate].
Qed.

(** Once the candidate is the midpoint of the window, every pass halves
    the window, so the loop ends. *)
Lemma search_bisects (n : nat) : forall st,
  bounds_ok st ->
  font_size st = (upper st + lower st) / 2 ->
  upper st - lower st <= inject_Z (2 ^ Z.of_nat n) / 2 ->
  exists st', run n st = Some st'.
Proof.
  induction n as [|n IH]; intros st Hb Hmid Hw.
  - exists st. apply search_stops_on_small_window.
    unfold loop_test, Py.ltb.
    destruct (Qlt_le_dec (5 # 10) (upper st - lower st)) as [Hlt|];
      [|reflexivity].
    rewrite half_mult in Hw. change (inject_Z (2 ^ Z.of_nat 0)) with 1 in Hw.
    lra.
  - cbn [search]. destruct (loop_test st) eqn:Ht; [|eexists; reflexivity].
    apply ltb_spec in Ht.
    destruct (loop_body_spec image text font_fp st Hb)
      as (flow & -> & Hb' & _ & Hflow).
    cbn [mbind option_bind]. destruct flow as [st1|st1];
      [eexists; reflexivity|].
    cbn [flow_state] in Hb'.
    rewrite Nat2Z.inj_succ, Z.pow_succ_r, inject_Z_mult in Hw by lia.
    change (inject_Z 2) with 2 in Hw. rewrite half_mult in Hw.
    destruct Hb as (Hl & Hlf & Hfu).
    rewrite Hmid, half_mult in Hlf, Hfu.
    destruct Hflow as [(Hge & _)|[(_ & Hlo & Hup & Hfs)|(Hlo & Hup & Hfs)]].
    + rewrite Hmid, half_mult in Hge. lra.
    + apply IH; [exact Hb'|exact Hfs|].
      rewrite Hlo, Hup, Hmid, !half_mult. lra.
    + apply IH; [exact Hb'|exact Hfs|].
      rewrite Hlo, Hup, Hmid, !half_mult. lra.
Qed.

(** While the candidate is the ceiling, a pass can only raise the ceiling
    when the scan found a boundary, that is while the font size is below
    the image height; each raise adds more than 1 to the size. *)
Lemma search_expands (m : nat) : forall st,
  bounds_ok st ->
  font_size st = upper st ->
  (Z.to_nat (height image - Py.int (font_size st)) < m)%nat ->
  exists fuel st', run fuel st = Some st'.
Proof.
  induction m as [|m IH]; intros st Hb Hceil Hm; [lia|].
  destruct (loop_test st) eqn:Ht.
  2: { exists 0%nat, st. apply search_stops_on_small_window. exact Ht. }
  destruct (loop_body_spec image text font_fp st Hb)
    as (flow & Hbody & Hb' & _ & Hflow).
  destruct flow as [st1|st1].
  { exists 1%nat, st1. cbn [search]. rewrite Ht, Hbody. reflexivity. }
  cbn [flow_state] in Hb'. pose proof Ht as Hwin. apply ltb_spec in Hwin.
  destruct Hb as (Hl & Hlf & Hfu).
  destruct Hflow as [(_ & _ & Hrows & Hlo & Hup & Hfs)
                    |[(Hlt & _)|(Hlo & Hup & Hfs)]].
  - destruct (IH st1 Hb') as (fuel & st' & Hrun).
    + rewrite Hfs. reflexivity.
    + assert (Py.int (font_size st) + 1 <= Py.int (font_size st1))%Z.
      { apply int_step; [lra|]. rewrite Hfs, Hup, Hceil. lra. }
      lia.
    + exists (S fuel), st'. cbn [search]. rewrite Ht, Hbody. exact Hrun.
  - rewrite Hceil in Hlt. exfalso. exact (Qlt_irrefl _ Hlt).
  - destruct (pow2_covers (upper st1 - lower st1)) as (n & Hn).
    destruct (search_bisects n st1 Hb' Hfs Hn) as (st' & Hrun).
    exists (S n), st'. cbn [search]. rewrite Ht, Hbody. exact Hrun.
Qed.

(** What the loop ends with. *)
Lemma search_spec fuel : forall st st',
  bounds_ok st ->
  loop_test st = true \/ layout_ok image text font_fp st ->
  run fuel st = Some st' ->
  bounds_ok st'
  /\ layout_ok image text font_fp st'
  /\ (fits text st' \/ upper st' - lower st' <= 1 # 2).
Proof.
  induction fuel as [|fuel IH]; intros st st' Hb Hinit Hrun;
    cbn [search] in Hrun; destruct (loop_test st) eqn:Ht;
    try discriminate.
  1, 3: inversion Hrun; subst;
    (split; [exact Hb|]);
    (split; [destruct Hinit as [Hc|Hl]; [discriminate|exact Hl]|]);
    right; unfold loop_test, Py.ltb in Ht;
    destruct (Qlt_le_dec (5 # 10) (upper st' - lower st')) as [|Hle];
    [discriminate|lra].
  destruct (loop_body_spec image text font_fp st Hb)
    as (flow & Hbody & Hb' & Hlay & Hflow).
  rewrite Hbody in Hrun. cbn [mbind option_bind] in Hrun.
  destruct flow as [st1|st1]; cbn [flow_state] in *.
  - inversion Hrun; subst. split; [exact Hb'|]. split; [exact Hlay|].
    left. exact Hflow.
  - apply (IH st1 st' Hb'); [right; exact Hlay|exact Hrun].
Qed.

End SearchRuns.

Lemma initial_state_bounds scaled_width :
  2000 <= scaled_width -> bounds_ok (initial_state scaled_width).
Proof.
  intros Hw. unfold bounds_ok, initial_state. cbn [lower upper font_size].
  rewrite Zle_Qle in Hw. change (inject_Z 2000) with 2000%Q in Hw.
  assert (inject_Z scaled_width / 10 == inject_Z scaled_width * (1 # 10))%Q
    as -> by (field; discriminate).
  lra.
Qed.


(** Once the working image is made the loop ends: some amount of fuel
    lets the search return, any larger amount gives the same state, and
    the state is a real packing that fits or sits in a collapsed
    window. *)
Lemma fit_text_search_returns `{PIL} fp text font_fp scaled_width image :
  working_image fp = Some (scaled_width, image) ->
  exists (fuel : nat) st,
    (forall k : nat,
        fit_text_search (fuel + k) fp text font_fp = Some (image, st))
    /\ bounds_ok st
    /\ layout_ok image text font_fp st
    /\ (fits text st \/ (upper st - lower st <= 1 # 2)%Q).
Proof.
  intros Himg.
  pose proof (working_image_width _ _ _ Himg) as Hsw.
  pose proof (initial_state_bounds _ Hsw) as Hb.
  destruct (search_expands image text font_fp
              (S (Z.to_nat (height image
                            - Py.int (font_size
                                        (initial_state scaled_width)))))
              (initial_state scaled_width) Hb eq_refl ltac:(lia))
    as (fuel & st & Hrun).
  exists fuel, st. split.
  - intros k. unfold fit_text_search. rewrite Himg.
    cbn [mbind option_bind].
    rewrite (search_fuel_mono image text font_fp fuel _ _ k Hrun).
    reflexivity.
  - exact (search_spec image text font_fp fuel _ _ Hb
             (or_introl (loop_test_initial _ Hsw)) Hrun).
Qed.

(** ** Degenerate input *)



(** ** The search ends *)

(** X15: [fit_text_to_image] raises whenever the working image cannot be
    made -- on an image of width 0 (the ratio [height / width]), and when
    [resize] refuses the size, as for the rounded height 0 of a 2004 x 1
    image -- and whenever the working image is made, for every text and
    colour and every font file that loads, the search loop ends and the
    function returns a canvas of the size of the working image: some
    amount of fuel suffices, and so does any larger amount, with the same
    canvas. *)
Theorem fit_text_to_image_returns `{PIL} fp text font_fp color :
  (width fp = 0 -> working_image fp = None)
  /\ (working_image fp = None ->
      forall fuel, fit_text_to_image fuel fp text font_fp color = None)
  /\ (forall scaled_width image,
        working_image fp = Some (scaled_width, image) ->
        exists (fuel : nat) canvas,
          canvas_size canvas = (width image, height image)
          /\ forall k : nat,
               fit_text_to_image (fuel + k) fp text font_fp color
               = Some canvas).
Proof.
  split; [|split].
  - intros Hw. unfold working_image, Float.truediv. rewrite Hw.
    reflexivity.
  - intros Himg fuel. unfold fit_text_to_image, fit_text_search.
    rewrite Himg. reflexivity.
  - intros scaled_width image Himg.
    destruct (fit_text_search_returns fp text font_fp _ _ Himg)
      as (fuel & st & Hrun & _ & (font0 & sp & Hfont & _) & _).
    exists fuel,
      {| canvas_size := (width image, height image);
         drawn := draw_text_lines (lines st) font0 color |}.
    split; [reflexivity|].
    intros k. unfold fit_text_to_image. rewrite (Hrun k).
    cbn [mbind option_bind]. rewrite Hfont. reflexivity.
Qed.

Lemma fit_text_to_image_returns_witness :
  @fit_text_to_image mono_pil 5 (opaque_image 0 300) "hi" "mono.ttf" black
  = None
  /\ @fit_text_to_image mono_pil 5 (opaque_image 2004 1) "hi" "mono.ttf"
       black
     = None
  /\ exists (fuel : nat) canvas,
       canvas_size canvas = (2001, 125)
       /\ forall k : nat,
            @fit_text_to_image mono_pil (fuel + k) (opaque_image 2001 126)
              "hi" "mono.ttf" black
            = Some canvas.
Proof.
  split; [|split].
  - destruct (@fit_text_to_image_returns mono_pil (opaque_image 0 300) "hi"
                "mono.ttf" black) as (Hzero & Hnone & _).
    apply Hnone. apply Hzero. reflexivity.
  - destruct (@fit_text_to_image_returns mono_pil (opaque_image 2004 1) "hi"
                "mono.ttf" black) as (_ & Hnone & _).
    apply Hnone. vm_compute. reflexivity.
  - destruct (@fit_text_to_image_returns mono_pil (opaque_image 2001 126)
                "hi" "mono.ttf" black) as (_ & _ & Hret).
    destruct (Hret 2001
                {| width := 2001; height := 125;
                   getpixel := getpixel (opaque_image 2001 126) |})
      as (fuel & canvas & Hsize & Hrun); [vm_compute; reflexivity|].
    exists fuel, canvas. split; [exact Hsize|exact Hrun].
Defined.

(** X16: whatever [fit_text_to_image] hands to the renderer is a real
    packing: the boundaries are those scanned at the size of the final
    font (a size of at least 1), the lines are what the packer makes of
    them with that font, and either the layout fits -- a line for every
    boundary and every word placed -- or the search window has collapsed
    to at most 0.5. *)
Theorem fit_text_search_result `{PIL} fuel fp text font_fp image st :
  fit_text_search fuel fp text font_fp = Some (image, st) ->
  bounds_ok st
  /\ layout_ok image text font_fp st
  /\ (fits text st \/ (upper st - lower st <= 1 # 2)%Q).
Proof.
  unfold fit_text_search.
  destruct (working_image fp) as [[scaled_width image0]|] eqn:Himg;
    [|discriminate].
  cbn [mbind option_bind].
  destruct (search fuel image0 text font_fp _ _) as [st0|] eqn:Hrun;
    [|discriminate].
  cbn [mbind option_bind]. intros Heq. inversion Heq; subst.
  pose proof (working_image_width _ _ _ Himg) as Hsw.
  exact (search_spec image text font_fp fuel _ _
           (initial_state_bounds _ Hsw)
           (or_introl (loop_test_initial _ Hsw)) Hrun).
Qed.

Lemma fit_text_search_result_witness :
  exists image st,
    @fit_text_search mono_pil 30 (opaque_image 2000 300) "hi" "mono.ttf"
    = Some (image, st)
    /\ bounds_ok st
    /\ @layout_ok mono_pil image "hi" "mono.ttf" st
    /\ (fits "hi" st \/ (upper st - lower st <= 1 # 2)%Q).
Proof.
  assert (exists r,
            @fit_text_search mono_pil 30 (opaque_image 2000 300) "hi"
              "mono.ttf" = Some r) as [[image st] Hrun]
    by (eexists; vm_compute; reflexivity).
  exists image, st. split; [exact Hrun|].
  exact (@fit_text_search_result mono_pil 30 (opaque_image 2000 300) "hi"
           "mono.ttf" image st Hrun).
Defined.

(** ** More on the cache *)

(** X18: the cache does not change what the packer returns: from a cache
    holding only widths stored by [get_word_width], the decorated packer
    returns the lines of the cache-free packer and leaves such a cache. *)
Theorem cached_packer_transparent `{PIL} (text : string)
    (boundaries : list Boundary.t) (font : ImageFont) (min_spacing : Q)
    (cache : Cache) :
  cache_ok cache ->
  exists cache',
    Cached.align_text_to_boundaries text boundaries font min_spacing cache
    = Some (align_text_to_boundaries text boundaries font min_spacing,
            cache')
    /\ cache_ok cache'.
Proof.
  revert cache.
  change (computes
            (Cached.align_text_to_boundaries text boundaries font min_spacing)
            (Some (align_text_to_boundaries text boundaries font
                     min_spacing))).
  unfold Cached.align_text_to_boundaries, align_text_to_boundaries.
  eapply computes_bind; [apply computes_pack|].
  destruct (pack boundaries font min_spacing (Py.split text)).
  apply computes_ret.
Qed.

Lemma cached_packer_transparent_witness :
  exists cache',
    @Cached.align_text_to_boundaries mono_pil "a b" [wide_boundary] mono10 5
      ∅
    = Some (@align_text_to_boundaries mono_pil "a b" [wide_boundary] mono10
              5, cache')
    /\ @cache_ok mono_pil cache'.
Proof.
  apply (@cached_packer_transparent mono_pil "a b" [wide_boundary] mono10 5
           ∅).
  exact (@cache_ok_empty mono_pil).
Defined.

(** ** The colour of [app.fit_text] *)

Lemma in_all_ascii (a : ascii) : In a all_ascii.
Proof.
  unfold all_ascii. apply in_map_iff. exists (nat_of_ascii a).
  split; [apply ascii_nat_embedding|].
  apply in_seq. pose proof (nat_ascii_bounded a). lia.
Qed.

(** A check that holds on every pair of the enumeration holds on every
    pair of characters. *)
Lemma all_pairs (P : ascii -> ascii -> bool) :
  forallb (fun a => forallb (P a) all_ascii) all_ascii = true ->
  forall a b, P a b = true.
Proof.
  intros Hall a b.
  rewrite forallb_forall in Hall. specialize (Hall a (in_all_ascii a)).
  rewrite forallb_forall in Hall. exact (Hall b (in_all_ascii b)).
Qed.

(** Two base-16 digits read as one byte. *)
Lemma int16_two_digits a b va vb :
  PyStr.digit16 a = Some va -> PyStr.digit16 b = Some vb ->
  PyStr.int16 (String a (String b EmptyString)) = Some (16 * va + vb)
  /\ 0 <= 16 * va + vb <= 255.
Proof.
  intros Ha Hb.
  pose proof (all_pairs
    (fun a b =>
       match PyStr.digit16 a, PyStr.digit16 b with
       | Some va, Some vb =>
           match PyStr.int16 (String a (String b EmptyString)) with
           | Some v =>
               (v =? 16 * va + vb) && (0 <=? v) && (v <=? 255)
           | None => false
           end
       | _, _ => true
       end) ltac:(vm_compute; reflexivity) a b) as Hab.
  cbv beta in Hab. rewrite Ha, Hb in Hab.
  destruct (PyStr.int16 (String a (String b EmptyString))) as [v|];
    [|discriminate].
  apply andb_true_iff in Hab as [Hab Hhi].
  apply andb_true_iff in Hab as [Heq Hlo].
  apply Z.eqb_eq in Heq. apply Z.leb_le in Hlo, Hhi. subst v.
  split; [reflexivity|lia].
Qed.

(** Whatever two characters [int] accepts, the value is between -15 and
    255. *)
Lemma int16_two_range a b v :
  PyStr.int16 (String a (String b EmptyString)) = Some v -> -15 <= v <= 255.
Proof.
  intros Hv.
  pose proof (all_pairs
    (fun a b =>
       match PyStr.int16 (String a (String b EmptyString)) with
       | Some v => (-15 <=? v) && (v <=? 255)
       | None => true
       end) ltac:(vm_compute; reflexivity) a b) as Hab.
  cbv beta in Hab. rewrite Hv in Hab.
  apply andb_true_iff in Hab as [Hlo Hhi].
  apply Z.leb_le in Hlo, Hhi. lia.
Qed.

Lemma digit16_not_hash a v :
  PyStr.digit16 a = Some v -> Ascii.eqb a "#" = false.
Proof.
  intros Ha. destruct (Ascii.eqb_spec a "#") as [->|]; [|reflexivity].
  vm_compute in Ha. discriminate.
Qed.

Lemma lstrip_hashes (k : nat) a s :
  Ascii.eqb a "#" = false ->
  PyStr.lstrip "#" (PyStr.repeat "#" k ++ String a s)%string = String a s.
Proof.
  intros Ha. induction k as [|k IH].
  - change (PyStr.lstrip "#" (String a s) = String a s).
    cbn [PyStr.lstrip]. rewrite Ha. reflexivity.
  - exact IH.
Qed.

(** X19: a colour of six base-16 digits, after any number of leading
    [#], gives the three bytes the digit pairs spell and a fully opaque
    alpha of 255; every component is between 0 and 255. *)
Theorem color_of_six_digits (k : nat) c1 c2 c3 c4 c5 c6 v1 v2 v3 v4 v5 v6 :
  PyStr.digit16 c1 = Some v1 -> PyStr.digit16 c2 = Some v2 ->
  PyStr.digit16 c3 = Some v3 -> PyStr.digit16 c4 = Some v4 ->
  PyStr.digit16 c5 = Some v5 -> PyStr.digit16 c6 = Some v6 ->
  fit_text_color
    (PyStr.repeat "#" k
     ++ String c1 (String c2 (String c3 (String c4 (String c5
          (String c6 EmptyString))))))%string
  = Some (16 * v1 + v2, 16 * v3 + v4, 16 * v5 + v6, 255)
  /\ 0 <= 16 * v1 + v2 <= 255 /\ 0 <= 16 * v3 + v4 <= 255
  /\ 0 <= 16 * v5 + v6 <= 255.
Proof.
  intros H1 H2 H3 H4 H5 H6. unfold fit_text_color.
  rewrite (lstrip_hashes k _ _ (digit16_not_hash _ _ H1)).
  destruct (int16_two_digits _ _ _ _ H1 H2) as [E12 R12].
  destruct (int16_two_digits _ _ _ _ H3 H4) as [E34 R34].
  destruct (int16_two_digits _ _ _ _ H5 H6) as [E56 R56].
  cbv [PyStr.ljust String.length Nat.sub PyStr.repeat String.append
       PyStr.slice substring].
  rewrite E12. cbn [mbind option_bind]. rewrite E34. cbn [mbind option_bind].
  rewrite E56. cbn [mbind option_bind].
  split; [reflexivity|]. split; [exact R12|]. split; [exact R34|exact R56].
Qed.

Lemma color_of_six_digits_witness :
  fit_text_color "#ff8000" = Some (255, 128, 0, 255).
Proof.
  apply (color_of_six_digits 1 "f" "f" "8" "0" "0" "0" 15 15 8 0 0 0);
    reflexivity.
Defined.

(** X20: a colour of eight base-16 digits, after any number of leading
    [#], gives the four bytes the digit pairs spell, the last being the
    alpha; whatever follows the eight digits is ignored. *)
Theorem color_of_eight_digits (k : nat) c1 c2 c3 c4 c5 c6 c7 c8
    v1 v2 v3 v4 v5 v6 v7 v8 rest :
  PyStr.digit16 c1 = Some v1 -> PyStr.digit16 c2 = Some v2 ->
  PyStr.digit16 c3 = Some v3 -> PyStr.digit16 c4 = Some v4 ->
  PyStr.digit16 c5 = Some v5 -> PyStr.digit16 c6 = Some v6 ->
  PyStr.digit16 c7 = Some v7 -> PyStr.digit16 c8 = Some v8 ->
  fit_text_color
    (PyStr.repeat "#" k
     ++ String c1 (String c2 (String c3 (String c4 (String c5
          (String c6 (String c7 (String c8 rest))))))))%string
  = Some (16 * v1 + v2, 16 * v3 + v4, 16 * v5 + v6, 16 * v7 + v8).
Proof.
  intros H1 H2 H3 H4 H5 H6 H7 H8. unfold fit_text_color.
  rewrite (lstrip_hashes k _ _ (digit16_not_hash _ _ H1)).
  destruct (int16_two_digits _ _ _ _ H1 H2) as [E12 _].
  destruct (int16_two_digits _ _ _ _ H3 H4) as [E34 _].
  destruct (int16_two_digits _ _ _ _ H5 H6) as [E56 _].
  destruct (int16_two_digits _ _ _ _ H7 H8) as [E78 _].
  unfold PyStr.ljust. cbn [String.length].
  replace (8 - S (S (S (S (S (S (S (S (String.length rest)))))))))%nat
    with 0%nat by lia.
  cbn [PyStr.repeat].
  assert (forall s, (s ++ EmptyString)%string = s) as Happ.
  { induction s as [|c s IH]; [reflexivity|].
    change (String c (s ++ EmptyString)%string = String c s).
    rewrite IH; reflexivity. }
  change ((String c1 (String c2 (String c3 (String c4 (String c5
             (String c6 (String c7 (String c8 rest))))))))
          ++ EmptyString)%string
    with (String c1 (String c2 (String c3 (String c4 (String c5
            (String c6 (String c7 (String c8
               (rest ++ EmptyString)%string)))))))).
  rewrite Happ.
  cbn [PyStr.slice substring Nat.sub].
  assert (forall s, substring 0 0 s = EmptyString) as Hsub
    by (destruct s; reflexivity).
  rewrite Hsub, E12. cbn [mbind option_bind]. rewrite E34.
  cbn [mbind option_bind]. rewrite E56. cbn [mbind option_bind].
  rewrite E78. reflexivity.
Qed.

Lemma color_of_eight_digits_witness :
  fit_text_color "##FF00aa80zz" = Some (255, 0, 170, 128).
Proof.
  apply (color_of_eight_digits 2 "F" "F" "0" "0" "a" "a" "8" "0"
           15 15 0 0 10 10 8 0 "zz"); reflexivity.
Defined.

Lemma string_length_append (s1 s2 : string) :
  String.length (s1 ++ s2)%string
  = (String.length s1 + String.length s2)%nat.
Proof.
  induction s1 as [|c s1 IH]; [reflexivity|].
  change (S (String.length (s1 ++ s2)%string)
          = S (String.length s1 + String.length s2)%nat).
  rewrite IH. reflexivity.
Qed.

Lemma repeat_length c (n : nat) : String.length (PyStr.repeat c n) = n.
Proof. induction n as [|n IH]; cbn; [reflexivity|rewrite IH; reflexivity]. Qed.

Lemma ljust_length (n : nat) c s : (n <= String.length (PyStr.ljust n c s))%nat.
Proof.
  unfold PyStr.ljust. rewrite string_length_append, repeat_length. lia.
Qed.

Lemma substring_two (i : nat) : forall s,
  (i + 2 <= String.length s)%nat ->
  exists a b, substring i 2 s = String a (String b EmptyString).
Proof.
  induction i as [|i IH]; intros s Hlen.
  - destruct s as [|a [|b s]]; cbn in Hlen; try lia.
    exists a, b. cbn. destruct s; reflexivity.
  - destruct s as [|a s]; cbn in Hlen; [lia|].
    cbn [substring]. apply IH. lia.
Qed.

(** X21: whenever the colour string is accepted, each of the four
    components is between -15 and 255; [int] accepts a sign, so a
    component can be negative, as the red of [#-f0000], which is -15. *)
Theorem color_components_range color r g b a :
  fit_text_color color = Some (r, g, b, a) ->
  -15 <= r <= 255 /\ -15 <= g <= 255 /\ -15 <= b <= 255
  /\ -15 <= a <= 255.
Proof.
  unfold fit_text_color. cbv zeta.
  set (h := PyStr.ljust 8 "f" (PyStr.lstrip "#" color)).
  pose proof (ljust_length 8 "f" (PyStr.lstrip "#" color)) as Hlen.
  fold h in Hlen. unfold PyStr.slice.
  destruct (substring_two 0 h ltac:(lia)) as (a1 & b1 & E1).
  destruct (substring_two 2 h ltac:(lia)) as (a2 & b2 & E2).
  destruct (substring_two 4 h ltac:(lia)) as (a3 & b3 & E3).
  destruct (substring_two 6 h ltac:(lia)) as (a4 & b4 & E4).
  change (2 - 0)%nat with 2%nat. change (4 - 2)%nat with 2%nat.
  change (6 - 4)%nat with 2%nat. change (8 - 6)%nat with 2%nat.
  rewrite E1, E2, E3, E4.
  destruct (PyStr.int16 (String a1 _)) as [r'|] eqn:Hr; [|discriminate].
  destruct (PyStr.int16 (String a2 _)) as [g'|] eqn:Hg; [|discriminate].
  destruct (PyStr.int16 (String a3 _)) as [b'|] eqn:Hb; [|discriminate].
  destruct (PyStr.int16 (String a4 _)) as [a'|] eqn:Ha; [|discriminate].
  cbn [mbind option_bind]. intros Heq. inversion Heq; subst.
  apply int16_two_range in Hr, Hg, Hb, Ha. lia.
Qed.

Lemma color_components_range_witness :
  fit_text_color "#-f0000" = Some (-15, 0, 0, 255)
  /\ -15 <= -15 <= 255.
Proof.
  split; [reflexivity|].
  apply (color_components_range "#-f0000" (-15) 0 0 255). reflexivity.
Defined.

(** X22: the search raises its ceiling only while the scan still finds a
    boundary, which needs a candidate font size below the image height;
    from a size at or above the height the ceiling is never raised. *)
Theorem ceiling_raise_needs_rows `{PIL} image text font_fp st st' :
  bounds_ok st ->
  loop_body image text font_fp (Py.len (Py.split text)) st = Some (Next st') ->
  (upper st < upper st')%Q ->
  Py.int (font_size st) < height image /\ boundaries st' <> [].
Proof.
  intros Hb Hbody Hup.
  destruct (loop_body_spec image text font_fp st Hb)
    as (flow & Hflow & _ & _ & Hcases).
  rewrite Hbody in Hflow. inversion Hflow; subst flow. clear Hflow.
  destruct Hb as (_ & _ & Hfu).
  destruct Hcases as [(_ & Hne & Hrows & _)|[(_ & _ & Hsame & _)|(_ & Hlow & _)]].
  - split; [exact Hrows|exact Hne].
  - rewrite Hsame in Hup. exfalso. exact (Qlt_irrefl _ Hup).
  - rewrite Hlow in Hup. exfalso. exact (Qlt_not_le _ _ Hup Hfu).
Qed.

Lemma ceiling_raise_needs_rows_witness :
  Py.int (font_size (initial_state 2000)) < height (opaque_image 2000 300).
Proof.
  destruct (@loop_body mono_pil (opaque_image 2000 300) EmptyString
              "mono.ttf" (Py.len (Py.split EmptyString))
              (initial_state 2000)) as [[st'|st']|] eqn:Hbody;
    try (vm_compute in Hbody; discriminate).
  apply (@ceiling_raise_needs_rows mono_pil (opaque_image 2000 300)
           EmptyString "mono.ttf" (initial_state 2000) st').
  - apply initial_state_bounds. lia.
  - exact Hbody.
  - vm_compute in Hbody. inversion Hbody; subst st'. reflexivity.
Defined.
